(** * Straw-condition collation: a shallow embedding of fetch-straw-conditions.py

    The script collates the detector-panel conditions of a run from two
    sources (the MIDAS configuration dump and the hardware database) and
    prints them as offline status tables.  Each Python function is embedded
    below under its own name; dictionaries that are only looked up are
    [gmap]s, dictionaries that are iterated are their [items()] in iteration
    order, raised exceptions are the [Error] results of a small error monad,
    and the calls into the outside world (ssh, lz4, json, psycopg2) are
    section variables. *)

From Stdlib Require Import ZArith Lia.
From Stdlib.Strings Require Import Ascii Byte.
From stdpp Require Import gmap strings list fin_maps pretty sorting.

Local Open Scope string_scope.
Local Open Scope list_scope.
Local Open Scope Z_scope.

(** ** Exceptions and the error monad *)

(** The exception classes the script can raise by itself, and one for the
    failures of the calls into the outside world.  [str_exn] is Python's
    [str(e)]: the message, or for a [KeyError] the [repr] of the missing
    key, which is what the constructor carries. *)
Inductive exn : Type :=
  | Exception (msg : string)
  | KeyError (key_repr : string)
  | TypeError (msg : string)
  | AttributeError (msg : string)
  | IndexError (msg : string)
  | CollaboratorError (msg : string).

Definition str_exn (e : exn) : string :=
  match e with
  | Exception m | KeyError m | TypeError m
  | AttributeError m | IndexError m | CollaboratorError m => m
  end.

Inductive result (A : Type) : Type :=
  | Ok (a : A)
  | Error (e : exn).
Arguments Ok {A} a.
Arguments Error {A} e.

(** Sequencing: an exception in the first computation skips the rest.  The
    instances give the notation [x ← r; k] of stdpp. *)
Definition result_bind {A B} (k : A → result B) (r : result A) : result B :=
  match r with
  | Ok a => k a
  | Error e => Error e
  end.

Global Instance result_mbind : MBind result := @result_bind.
Global Instance result_mret : MRet result := @Ok.

(** A [for] loop whose body may raise: the accumulator is threaded through
    the items in order and the first exception ends the loop. *)
Fixpoint for_each {A S} (body : S → A → result S) (s : S) (xs : list A)
    : result S :=
  match xs with
  | [] => Ok s
  | x :: xs' => s' ← body s x; for_each body s' xs'
  end.

(** ** The object extractor (fetch_midas_configuration, lines 26-44) *)

Module Extractor.

Global Instance byte_eq_dec : EqDecision byte := Byte.byte_eq_dec.

Definition plus : byte := "{"%byte.
Definition mnus : byte := "}"%byte.
Definition start : nat := 16.

(** [buff[i:j]] for [i <= j]. *)
Definition slice (buff : list byte) (i j : nat) : list byte :=
  take (j - i) (drop i buff).

(** The [while idx < end] loop.  [rest] is [buff[idx:]], so that [rest = []]
    is [idx = end]; the result is the value of [idx] when the loop ends. *)
Fixpoint scan (rest : list byte) (idx : nat) (score : Z) : nat :=
  match rest with
  | [] => idx
  | b :: rest' =>
      let score' :=
        if decide (b = plus) then score + 1
        else if decide (b = mnus) then score - 1
        else score in
      let idx' := S idx in
      if decide (score' < 1) then idx' else scan rest' idx' score'
  end.

(** Lines 26-44: the guard on [buff[start]], the scan and the slice.
    [buff[start]] on a buffer of at most 16 bytes is Python's IndexError. *)
Definition extract_object (buff : list byte) : result (list byte) :=
  match buff !! start with
  | None => Error (IndexError "index out of range")
  | Some b =>
      if decide (b ≠ plus) then Error (Exception "malformed midas configuration")
      else
        let idx := scan (drop start buff) start 0 in
        Ok (slice buff start idx)
  end.

(** The depth counter of the specification: +1 per open brace, -1 per close
    brace, over a whole byte string. *)
Definition delta (b : byte) : Z :=
  if decide (b = plus) then 1 else if decide (b = mnus) then -1 else 0.

Definition depth (l : list byte) : Z := foldr (λ b acc, delta b + acc) 0 l.

End Extractor.

(** ** Parsed JSON and the Python operations the script applies to it *)

(** What [json.loads] returns: None, bool, int, str, list and dict values.
    A dict is the list of its items in iteration order; numbers are the
    integer ones (a literal with a fraction or an exponent is not
    represented); a [str] is its sequence of characters. *)
#[local] Unset Elimination Schemes.
Inductive json : Type :=
  | JNull
  | JBool (b : bool)
  | JInt (z : Z)
  | JStr (s : string)
  | JArr (l : list json)
  | JObj (kvs : list (string * json)).
#[local] Set Elimination Schemes.

Definition type_name (v : json) : string :=
  match v with
  | JNull => "NoneType"
  | JBool _ => "bool"
  | JInt _ => "int"
  | JStr _ => "str"
  | JArr _ => "list"
  | JObj _ => "dict"
  end.

(** [repr] of a string, as a [KeyError] shows a missing key.  The characters
    of a string are the code points below 256, written by their decimal
    codes where a literal would be hard to read: 009, 010 and 013 are tab,
    line feed and carriage return, 034 the double quote, 039 the single
    quote, 092 the backslash.  The characters that [str.isprintable]
    rejects are the control characters, the no-break space (160) and the
    soft hyphen (173). *)
Definition printable (c : ascii) : bool :=
  let n := nat_of_ascii c in
  bool_decide (32 ≤ n < 127 ∨ 161 ≤ n ∧ n ≠ 173)%nat.

(** A lower-case hexadecimal digit. *)
Definition hex_digit (n : nat) : ascii :=
  ascii_of_nat (if decide (n < 10)%nat then 48 + n else 87 + n).

(** One character inside the quotes: the quote in use and the backslash
    get a backslash, tab, line feed and carriage return their letter, the
    other characters that are not printable their two hexadecimal digits. *)
Definition escape (quote c : ascii) : string :=
  if decide (c = quote ∨ c = "092"%char) then
    String "092" (String c EmptyString)
  else if decide (c = "009"%char) then String "092" "t"
  else if decide (c = "010"%char) then String "092" "n"
  else if decide (c = "013"%char) then String "092" "r"
  else if printable c then String c EmptyString
  else
    let n := nat_of_ascii c in
    String "092" (String "x" (String (hex_digit (n / 16))
                                (String (hex_digit (n mod 16)) EmptyString))).

Fixpoint has (c : ascii) (s : string) : bool :=
  match s with
  | EmptyString => false
  | String d s' => bool_decide (c = d) || has c s'
  end.

Fixpoint escape_all (quote : ascii) (s : string) : string :=
  match s with
  | EmptyString => EmptyString
  | String c s' => escape quote c +:+ escape_all quote s'
  end.

(** The quotes are single ones, unless the string holds a single quote and
    no double quote. *)
Definition repr_str (s : string) : string :=
  let quote :=
    if has "039" s && negb (has "034" s) then "034"%char else "039"%char in
  String quote (escape_all quote s +:+ String quote EmptyString).

Fixpoint assoc {V} (key : string) (kvs : list (string * V)) : option V :=
  match kvs with
  | [] => None
  | (k, v) :: kvs' => if decide (k = key) then Some v else assoc key kvs'
  end.

(** [v[key]] for a string [key]. *)
Definition getitem (v : json) (key : string) : result json :=
  match v with
  | JObj kvs =>
      match assoc key kvs with
      | Some x => Ok x
      | None => Error (KeyError (repr_str key))
      end
  | JArr _ => Error (TypeError "list indices must be integers or slices, not str")
  | JStr _ => Error (TypeError "string indices must be integers, not 'str'")
  | _ => Error (TypeError ("'" +:+ type_name v +:+ "' object is not subscriptable"))
  end.

(** [v.items()]. *)
Definition items (v : json) : result (list (string * json)) :=
  match v with
  | JObj kvs => Ok kvs
  | _ => Error (AttributeError
                  ("'" +:+ type_name v +:+ "' object has no attribute 'items'"))
  end.

(** [len(v)]. *)
Definition len (v : json) : result nat :=
  match v with
  | JStr s => Ok (String.length s)
  | JArr l => Ok (length l)
  | JObj kvs => Ok (length kvs)
  | _ => Error (TypeError ("object of type '" +:+ type_name v +:+ "' has no len()"))
  end.

(** [v[i]] for an index [i] of [range(len(v))].  The keys of a parsed dict
    are strings, so an integer is never one of them. *)
Definition getitem_int (v : json) (i : nat) : result json :=
  match v with
  | JArr l =>
      match l !! i with
      | Some x => Ok x
      | None => Error (IndexError "list index out of range")
      end
  | JStr s =>
      match String.get i s with
      | Some c => Ok (JStr (String c EmptyString))
      | None => Error (IndexError "string index out of range")
      end
  | JObj _ => Error (KeyError (pretty i))
  | _ => Error (TypeError ("'" +:+ type_name v +:+ "' object is not subscriptable"))
  end.

(** Truth value: [not v] is [negb (truthy v)]. *)
Definition truthy (v : json) : bool :=
  match v with
  | JNull => false
  | JBool b => b
  | JInt z => negb (bool_decide (z = 0))
  | JStr s => negb (bool_decide (s = ""))
  | JArr l => match l with [] => false | _ :: _ => true end
  | JObj kvs => match kvs with [] => false | _ :: _ => true end
  end.

(** ** Dictionary keys and panel records *)

(** The hashable values as dictionary keys: [True] and [1] (and [False] and
    [0]) are one key, as they compare and hash equal. *)
Inductive pykey : Type :=
  | KNone
  | KInt (z : Z)
  | KStr (s : string).

Global Instance pykey_eq_dec : EqDecision pykey.
Proof. solve_decision. Defined.

Definition pykey_code (k : pykey) : option (Z + string) :=
  match k with
  | KNone => None
  | KInt z => Some (inl z)
  | KStr s => Some (inr s)
  end.

Definition pykey_uncode (c : option (Z + string)) : pykey :=
  match c with
  | None => KNone
  | Some (inl z) => KInt z
  | Some (inr s) => KStr s
  end.

Global Instance pykey_countable : Countable pykey.
Proof. apply (inj_countable' pykey_code pykey_uncode). by intros []. Defined.

(** The hashable values themselves, as a dictionary that is iterated hands
    them out: [True] is looked up as the key [1] and shown as [True]. *)
Inductive hashable : Type :=
  | HNone
  | HBool (b : bool)
  | HInt (z : Z)
  | HStr (s : string).

Definition key_of (h : hashable) : pykey :=
  match h with
  | HNone => KNone
  | HBool b => KInt (if b then 1 else 0)
  | HInt z => KInt z
  | HStr s => KStr s
  end.

(** [repr] of a key, as a [KeyError] shows it. *)
Definition repr_key (h : hashable) : string :=
  match h with
  | HNone => "None"
  | HBool b => if b then "True" else "False"
  | HInt z => pretty z
  | HStr s => repr_str s
  end.

(** A panel record: field name to list of straw indices. *)
Abbreviation record := (gmap string (list Z)).
Abbreviation conditions_map := (gmap pykey (gmap string (list Z))).

(** The items of an iterated mapping, under the keys that a lookup uses. *)
Definition keyed (conditions : list (hashable * record))
    : list (pykey * record) :=
  (λ item, (key_of item.1, item.2)) <$> conditions.

(** A value used as a label: its dictionary key and its text under [%s];
    lists and dicts are unhashable. *)
Definition label_of (v : json) : result (pykey * string) :=
  match v with
  | JNull => Ok (KNone, "None")
  | JBool b => Ok (KInt (if b then 1 else 0), if b then "True" else "False")
  | JInt z => Ok (KInt z, pretty z)
  | JStr s => Ok (KStr s, s)
  | JArr _ => Error (TypeError "unhashable type: 'list'")
  | JObj _ => Error (TypeError "unhashable type: 'dict'")
  end.

(** ** Text *)

(** What is left of [s] after the literal [lit] at its start, if it starts
    with it. *)
Fixpoint strip_prefix (lit s : string) : option string :=
  match lit with
  | EmptyString => Some s
  | String c lit' =>
      match s with
      | EmptyString => None
      | String d s' => if decide (c = d) then strip_prefix lit' s' else None
      end
  end.

(** [sub in s]: the text [sub] occurs somewhere in [s]. *)
Definition occurs (sub s : string) : Prop := ∃ pre post, s = pre +:+ sub +:+ post.

Fixpoint occursb (sub s : string) : bool :=
  match strip_prefix sub s, s with
  | Some _, _ => true
  | None, EmptyString => false
  | None, String _ s' => occursb sub s'
  end.

(** ** The configuration navigator (get_midas_conditions, lines 54-80) *)

Module Navigator.

Definition is_digit (c : Ascii.ascii) : bool :=
  bool_decide (48 ≤ Ascii.nat_of_ascii c ≤ 57)%nat.

(** [lit[0-9]{2}]. *)
Definition match_two_digits (lit s : string) : bool :=
  match strip_prefix lit s with
  | Some (String c1 (String c2 _)) => is_digit c1 && is_digit c2
  | _ => false
  end.

(** [re.match('Station_0{2}', kst)]: the pattern is anchored at the start of
    the key only, and what follows the match is free. *)
Definition match_station (kst : string) : bool :=
  bool_decide (is_Some (strip_prefix "Station_00" kst)).

(** [re.match('Plane_[0-9]{2}', kpl)]. *)
Definition match_plane (kpl : string) : bool := match_two_digits "Plane_" kpl.

(** [re.match('Panel_[0-9]{2}', kpn)]. *)
Definition match_panel (kpn : string) : bool := match_two_digits "Panel_" kpn.

(** [[i for i in range(n) if not enabled[i]]]. *)
Definition disabled_channels (enabled : json) (n : nat) : result (list Z) :=
  for_each
    (λ acc i, x ← getitem_int enabled i;
              Ok (if truthy x then acc else acc ++ [Z.of_nat i]))
    [] (seq 0 n).

(** Lines 70-76, the body of the [try]. *)
Definition read_mask (rv : conditions_map) (key : pykey) (vpn : json)
    : result conditions_map :=
  enabled ← getitem vpn "ch_mask";
  n ← len enabled;
  if decide (n ≠ 96%nat) then Error (Exception "malformed readout mask")
  else
    disabled ← disabled_channels enabled n;
    Ok (<[key := {["readout_disabled" := disabled]}]> rv).

(** Lines 66-79, the body of the innermost loop for a matched panel key. *)
Definition visit_panel (rv : conditions_map) (vpn : json)
    : result conditions_map :=
  name ← getitem vpn "Name";
  '(key, label) ← label_of name;
  if decide (key ∈ dom rv) then
    Error (Exception ("encountered duplicate panel " +:+ label))
  else
    match read_mask rv key vpn with
    | Ok rv' => Ok rv'
    | Error e =>
        Error (Exception ("exception: " +:+ label +:+ ": " +:+ str_exn e))
    end.

(** Lines 64-79: the loop over the items of a plane. *)
Definition visit_panels (rv : conditions_map) (pns : list (string * json))
    : result conditions_map :=
  for_each (λ rv '(kpn, vpn),
              if match_panel kpn then visit_panel rv vpn else Ok rv) rv pns.

(** Lines 62-79: the loop over the items of a station. *)
Definition visit_planes (rv : conditions_map) (pls : list (string * json))
    : result conditions_map :=
  for_each (λ rv '(kpl, vpl),
              if match_plane kpl then pns ← items vpl; visit_panels rv pns
              else Ok rv) rv pls.

(** Lines 60-79: the loop over the items of the tracker node. *)
Definition visit_stations (rv : conditions_map) (sts : list (string * json))
    : result conditions_map :=
  for_each (λ rv '(kst, vst),
              if match_station kst then pls ← items vst; visit_planes rv pls
              else Ok rv) rv sts.

(** Lines 54-57: the fixed key path down to the tracker node. *)
Definition descend (configuration : json) : result json :=
  configuration ← getitem configuration "Mu2e";
  configuration ← getitem configuration "RunConfigurations";
  configuration ← getitem configuration "train_station";
  getitem configuration "Tracker".

(** Lines 54-80: everything of [get_midas_conditions] after the fetch. *)
Definition navigate (configuration : json) : result conditions_map :=
  configuration ← descend configuration;
  sts ← items configuration;
  visit_stations ∅ sts.

(** *** Notions used to state what the traversal does *)

(** The traversal of the tracker items [sts] arrives at the matched panel
    node [vpn] with [rv] collected so far: the node sits under a matched
    station, plane and panel key, and everything before it was visited
    without an exception. *)
Definition reaches (sts : list (string * json)) (rv : conditions_map)
    (vpn : json) : Prop :=
  ∃ sts1 kst pls1 kpl pns1 kpn pns2 pls2 sts2 rv1 rv2,
    sts = sts1 ++
          (kst, JObj (pls1 ++
                      (kpl, JObj (pns1 ++ (kpn, vpn) :: pns2)) :: pls2))
          :: sts2 ∧
    match_station kst = true ∧ match_plane kpl = true ∧
    match_panel kpn = true ∧
    visit_stations ∅ sts1 = Ok rv1 ∧
    visit_planes rv1 pls1 = Ok rv2 ∧
    visit_panels rv2 pns1 = Ok rv.

(** The panel nodes under matched keys, in the order of the traversal. *)
Definition panels_of_plane (pns : list (string * json)) : list json :=
  '(kpn, vpn) ← pns; if match_panel kpn then [vpn] else [].

Definition panels_of_station (pls : list (string * json)) : list json :=
  '(kpl, vpl) ← pls;
  if match_plane kpl then
    match vpl with JObj pns => panels_of_plane pns | _ => [] end
  else [].

Definition matched_panels (sts : list (string * json)) : list json :=
  '(kst, vst) ← sts;
  if match_station kst then
    match vst with JObj pls => panels_of_station pls | _ => [] end
  else [].

(** The indices of a mask whose entry is falsy, in increasing order. *)
Definition falsy_at (mask : list json) (i : nat) : bool :=
  match mask !! i with
  | Some x => negb (truthy x)
  | None => false
  end.

Definition falsy_indices (mask : list json) : list Z :=
  Z.of_nat <$> filter (λ i, falsy_at mask i = true) (seq 0 (length mask)).

(** A panel node that passes every check: its key and its disabled list. *)
Definition panel_passes (vpn : json) (entry : pykey * list Z) : Prop :=
  ∃ name label enabled,
    getitem vpn "Name" = Ok name ∧ label_of name = Ok (entry.1, label) ∧
    getitem vpn "ch_mask" = Ok enabled ∧ len enabled = Ok 96%nat ∧
    disabled_channels enabled 96 = Ok entry.2.

(** The record stored for a panel, and the item it makes with its key. *)
Definition disabled_record (disabled : list Z) : record :=
  {["readout_disabled" := disabled]}.

Definition record_of (entry : pykey * list Z) : pykey * record :=
  (entry.1, disabled_record entry.2).

(** [f] visits the panel nodes [ps]: when it goes through, every node passed
    its checks, the keys are new and pairwise distinct, and exactly their
    records were added. *)
Definition collects (f : conditions_map → result conditions_map)
    (ps : list json) : Prop :=
  ∀ rv rv', f rv = Ok rv' →
    ∃ entries,
      Forall2 panel_passes ps entries ∧ NoDup entries.*1 ∧
      (∀ k, k ∈ entries.*1 → k ∉ dom rv) ∧
      rv' = list_to_map (record_of <$> entries) ∪ rv.

End Navigator.

(** ** Text formatting *)

(** ['%d' % n] is [pretty n] for an integer [n]. *)
Fixpoint zeros (k : nat) : string :=
  match k with
  | O => ""
  | S k' => "0" +:+ zeros k'
  end.

(** ['%03d' % n]: zero padding to width three, the sign counted in. *)
Definition fmt_03d (n : Z) : string :=
  if decide (n < 0) then
    "-" +:+ zeros (2 - String.length (pretty (- n))) +:+ pretty (- n)
  else zeros (3 - String.length (pretty n)) +:+ pretty n.

(** ['MN%03d' % n]. *)
Definition panel_label (n : Z) : string := "MN" +:+ fmt_03d n.

(** The three decimal digits of a number below 1000, as text. *)
Definition digit (d : nat) : Ascii.ascii := Ascii.ascii_of_nat (48 + d).

Definition three_digits (i : nat) : string :=
  String (digit (i / 100)) (String (digit (i / 10 mod 10))
    (String (digit (i mod 10)) EmptyString)).

(** ** The hardware condition fetcher (lines 82-108) *)

Module Fetcher.

(** [build_hardware_query(panels)], lines 82-91; the loop runs over
    [enumerate(panels)]. *)
Definition build_hardware_query (panels : list Z) : string :=
  let rv := "SELECT panel_id,missing_straws,missing_wires from qc.panels" in
  let rv := if decide (0 < length panels)%nat then rv +:+ " WHERE" else rv in
  let rv :=
    foldl (λ rv '(i, panel),
             let rv := if decide (0 < i)%nat then rv +:+ " OR" else rv in
             rv +:+ " panel_id = " +:+ pretty panel)
          rv (zip (seq 0 (length panels)) panels) in
  rv +:+ " ORDER BY panel_id ASC;".

(** A row of the query: panel id, missing straws, missing wires. *)
Definition row : Type := Z * list Z * list Z.

(** Lines 101-106: the loop over the rows of the cursor. *)
Definition collect_rows (rows : list row) : conditions_map :=
  foldl (λ rv '(panel_id, missing_straws, missing_wires),
           <[KStr (panel_label panel_id) :=
               <["missing_straws" := missing_straws]>
                 (<["missing_wires" := missing_wires]> ∅)]> rv)
        ∅ rows.

Section Database.
(** The database driver: connecting with a DSN gives, or fails to give,
    a session that runs one statement and returns its rows. *)
Variable pg_connect : string → result (string → result (list row)).

(** [cursor.execute(query)] followed by the reading of the cursor: the
    session is handed the statement, which the first component records,
    and answers with rows or an exception. *)
Definition cursor_execute (session : string → result (list row))
    (query : string) : list string * result (list row) :=
  ([query], session query).

(** [get_hardware_conditions], lines 93-108.  The first component lists
    the statements handed to [cursor.execute], in order. *)
Definition get_hardware_conditions
    (host : string) (port : Z) (user db : string) (run : Z)
    : list string * result conditions_map :=
  let dsn := "host=" +:+ host +:+ " port=" +:+ pretty port +:+
             " user=" +:+ user +:+ " dbname=" +:+ db in
  match pg_connect dsn with
  | Error e => ([], Error e)
  | Ok session =>
      let query := build_hardware_query [] in
      let '(sent, r) := cursor_execute session query in
      (sent, rows ← r; Ok (collect_rows rows))
  end.
End Database.

(** The shapes claimed for the query text. *)
Definition predicate (panel : Z) : string := " panel_id = " +:+ pretty panel.

(** One predicate per id, [" OR"] between two of them. *)
Fixpoint or_chain (panels : list Z) : string :=
  match panels with
  | [] => ""
  | [p] => predicate p
  | p :: ps => predicate p +:+ " OR" +:+ or_chain ps
  end.

Definition select_clause : string :=
  "SELECT panel_id,missing_straws,missing_wires from qc.panels".

Definition order_clause : string := " ORDER BY panel_id ASC;".

End Fetcher.

(** ** The condition reconciler (get_conditions, lines 129-144) *)

Module Reconciler.

(** [set(['MN%03d' % i for i in range(1, 999+1)])]. *)
Definition default_allowed : gset pykey :=
  list_to_set ((λ i, KStr (panel_label (Z.of_nat i))) <$> seq 1 999).

(** [tmp.update(other)]: the fields of [other] are copied over [tmp]. *)
Definition update (tmp other : record) : record := other ∪ tmp.

(** Lines 137-141: the record built for one key. *)
Definition merged_record (midas_conditions hardware_conditions : conditions_map)
    (key : pykey) : record :=
  let tmp := ∅ in
  let tmp := match midas_conditions !! key with
             | Some r => update tmp r
             | None => tmp
             end in
  let tmp := match hardware_conditions !! key with
             | Some r => update tmp r
             | None => tmp
             end in
  tmp.

(** The allow-list in force: [allowed] is [None] or a collection of labels. *)
Definition allowed_set (allowed : option (list pykey)) : gset pykey :=
  match allowed with
  | None => default_allowed
  | Some l => list_to_set l
  end.

(** Lines 129-144 of [get_conditions]: the merge of the two mappings. *)
Definition reconcile (midas_conditions hardware_conditions : conditions_map)
    (allowed : option (list pykey)) : conditions_map :=
  let allowed := allowed_set allowed in
  let midas_keys : gset pykey := dom midas_conditions in
  let hardware_keys : gset pykey := dom hardware_conditions in
  let keys := (midas_keys ∪ hardware_keys) ∩ allowed in
  foldl (λ rv key,
           <[key := merged_record midas_conditions hardware_conditions key]> rv)
        ∅ (elements keys).

End Reconciler.

(** ** The table emitter (write_offline_table, lines 157-164) *)

Module Emitter.

(** What a piece of the emitter does: the lines it hands to [write], in
    order, and whether it then ends normally or raises. *)
Definition emitted : Type := list string * result unit.

(** A [for] loop over [xs] whose body writes lines and may raise: the lines
    written before an exception stay written. *)
Fixpoint for_emit {A} (body : A → emitted) (xs : list A) : emitted :=
  match xs with
  | [] => ([], Ok ())
  | x :: xs' =>
      match body x with
      | (out, Ok _) => let '(out', r) := for_emit body xs' in (out ++ out', r)
      | (out, Error e) => (out, Error e)
      end
  end.

(** ['%d_%d_%d, %s' % (plane, panel, straw, label)]. *)
Definition data_line (plane panel straw : Z) (label : string) : string :=
  pretty plane +:+ "_" +:+ pretty panel +:+ "_" +:+ pretty straw +:+
  ", " +:+ label.

(** Lines 162-164: the body of the loop over the panels. *)
Definition write_panel (geography : gmap pykey (Z * Z)) (label lookup : string)
    (item : hashable * record) : emitted :=
  let '(minnesota, collections) := item in
  match geography !! key_of minnesota with
  | None => ([], Error (KeyError (repr_key minnesota)))
  | Some (plane, panel) =>
      match collections !! lookup with
      | None => ([], Error (KeyError (repr_str lookup)))
      | Some straws =>
          ((λ straw, data_line plane panel straw label) <$> straws, Ok ())
      end
  end.

(** Lines 161-164: the body of the loop over the criteria of a level. *)
Definition write_criterion (conditions : list (hashable * record))
    (geography : gmap pykey (Z * Z)) (criterion : string * string) : emitted :=
  let '(label, lookup) := criterion in
  for_emit (write_panel geography label lookup) conditions.

(** Lines 159-164: the body of the loop over the levels. *)
Definition write_level (conditions : list (hashable * record))
    (geography : gmap pykey (Z * Z))
    (entry : string * list (string * string)) : emitted :=
  let '(level, criteria) := entry in
  let '(out, r) := for_emit (write_criterion conditions geography) criteria in
  (level :: out, r).

(** [write_offline_table(conditions, geography, scheme, write)]: the three
    iterated dicts are their items in iteration order, and [write] appends
    to the emitted lines. *)
Definition write_offline_table (conditions : list (hashable * record))
    (geography : gmap pykey (Z * Z))
    (scheme : list (string * list (string * string))) : emitted :=
  for_emit (write_level conditions geography) scheme.

(** The data lines claimed under one level: one per output label, panel and
    index, a panel contributing the indices of the field looked up. *)
Definition panel_lines (geography : gmap pykey (Z * Z)) (label lookup : string)
    (item : hashable * record) : list string :=
  match geography !! key_of item.1, item.2 !! lookup with
  | Some (plane, panel), Some straws =>
      (λ straw, data_line plane panel straw label) <$> straws
  | _, _ => []
  end.

Definition level_lines (conditions : list (hashable * record))
    (geography : gmap pykey (Z * Z)) (criteria : list (string * string))
    : list string :=
  criterion ← criteria;
  item ← conditions;
  panel_lines geography criterion.1 criterion.2 item.

(** The number of indices a panel record lists under a field. *)
Definition field_length (collections : record) (lookup : string) : nat :=
  length (default [] (collections !! lookup)).

Definition level_count (conditions : list (hashable * record))
    (criteria : list (string * string)) : nat :=
  sum_list ((λ criterion,
               sum_list ((λ item : hashable * record,
                            field_length item.2 criterion.2) <$> conditions))
            <$> criteria).

(** Every panel has its coordinates, and every record every field that the
    scheme names. *)
Definition covered (conditions : list (hashable * record))
    (geography : gmap pykey (Z * Z)) : Prop :=
  ∀ minnesota collections,
    (minnesota, collections) ∈ conditions → is_Some (geography !! key_of minnesota).

Definition names_field (scheme : list (string * list (string * string)))
    (lookup : string) : Prop :=
  ∃ level criteria label,
    (level, criteria) ∈ scheme ∧ (label, lookup) ∈ criteria.

Definition fields_present (conditions : list (hashable * record))
    (scheme : list (string * list (string * string))) : Prop :=
  ∀ lookup minnesota collections,
    names_field scheme lookup →
    (minnesota, collections) ∈ conditions → is_Some (collections !! lookup).

(** The scheme of [main], lines 172-180. *)
Definition status_levels : list (string * list (string * string)) :=
  [ ("TrkStrawStatusLong",
      [ ("Absent", "missing_straws"); ("NoWire", "missing_wires") ]);
    ("TrkStrawStatusShort",
      [ ("Disabled", "readout_disabled") ]) ].

End Emitter.

(** ** The pipeline (lines 19-50, 52-53, 110-144) *)

(** The run configuration file, with the settings [get_conditions] reads. *)
Record config : Type := {
  midas_host : string;
  midas_base : string;
  midas_pattern : string;
  pg_host : string;
  pg_port : Z;
  pg_user : string;
  pg_db : string;
}.

Section Pipeline.
(** The calls into the outside world. *)
Variable fetch_compressed_midas_configuration :
  string → string → string → Z → result (list byte).
Variable lz4_frame_decompress : list byte → result (list byte).
Variable bytes_decode : list byte → result string.
Variable json_loads : string → result json.
Variable pg_connect : string → result (string → result (list Fetcher.row)).

(** [fetch_midas_configuration], lines 19-50. *)
Definition fetch_midas_configuration (host base pattern : string) (run : Z)
    : result json :=
  buff ← fetch_compressed_midas_configuration host base pattern run;
  buff ← lz4_frame_decompress buff;
  buff ← Extractor.extract_object buff;
  buff ← bytes_decode buff;
  json_loads buff.

(** [get_midas_conditions], lines 52-80. *)
Definition get_midas_conditions (host base pattern : string) (run : Z)
    : result conditions_map :=
  configuration ← fetch_midas_configuration host base pattern run;
  Navigator.navigate configuration.

(** [get_conditions], lines 110-144, with the statements sent to the
    database as first component. *)
Definition get_conditions (run : Z) (cfg : config)
    (allowed : option (list pykey)) : list string * result conditions_map :=
  match get_midas_conditions (midas_host cfg) (midas_base cfg)
                             (midas_pattern cfg) run with
  | Error e => ([], Error e)
  | Ok midas_conditions =>
      let '(sent, r) :=
        Fetcher.get_hardware_conditions pg_connect
          (pg_host cfg) (pg_port cfg) (pg_user cfg) (pg_db cfg) run in
      (sent, hardware_conditions ← r;
             Ok (Reconciler.reconcile midas_conditions hardware_conditions
                                      allowed))
  end.
End Pipeline.

(** ** Concrete inputs *)

Module Samples.

(** A 16-byte header. *)
Definition header : list byte := replicate 16 "000"%byte.

(** A balanced region with a nested object, and bytes to put after it. *)
Definition balanced_region : list byte := String.list_byte_of_string "{a{b}c}".

Definition trailing_bytes : list byte := String.list_byte_of_string "}}x{".

(** The ten bytes of an object with the key a and, as its value, the
    one-character string made of an open brace: two open braces, one close
    brace. *)
Definition unbalanced_tail : list byte :=
  [x7b; x22; x61; x22; x3a; x20; x22; x7b; x22; x7d].

Definition unbalanced_buffer : list byte := header ++ unbalanced_tail.

(** A header followed by a lone open brace. *)
Definition open_buffer : list byte := header ++ [Extractor.plus].

(** The configuration tree with the tracker items [sts] at the fixed path. *)
Definition configuration_of (sts : list (string * json)) : json :=
  JObj [("Mu2e",
         JObj [("RunConfigurations",
                JObj [("train_station", JObj [("Tracker", JObj sts)])])])].

(** A tracker with one station and one plane holding the panel items. *)
Definition one_plane (pns : list (string * json)) : list (string * json) :=
  [("Station_00", JObj [("Plane_00", JObj pns)])].

Definition panel_node (name : string) (mask : list json) : json :=
  JObj [("Name", JStr name); ("ch_mask", JArr mask)].

(** All 96 channels enabled, and the same with channels 3 and 7 off. *)
Definition mask_on : list json := replicate 96 (JBool true).

Definition mask_3_7 : list json :=
  <[7%nat := JBool false]> (<[3%nat := JBool false]> mask_on).

(** Trees with two panel nodes under one plane. *)
Definition two_panels (p0 p1 : json) : json :=
  configuration_of (one_plane [("Panel_00", p0); ("Panel_01", p1)]).


(** A sound panel, then one that repeats its name. *)
Definition good_then_repeated : json :=
  two_panels (panel_node "MN001" mask_3_7) (panel_node "MN001" mask_on).



(** A panel with an empty mask, then a sound one that repeats its name. *)
Definition short_then_repeated : json :=
  two_panels (panel_node "MN001" []) (panel_node "MN001" mask_on).

(** A midas-only panel and a hardware-only panel, their merge in the two
    orders in which its items can come, and a map with both coordinates. *)
Definition midas_sample : conditions_map :=
  {[KStr "MN002" := Navigator.disabled_record []]}.

Definition hardware_record (missing_straws missing_wires : list Z) : record :=
  <["missing_straws" := missing_straws]> (<["missing_wires" := missing_wires]> ∅).

Definition hardware_sample : conditions_map :=
  {[KStr "MN005" := hardware_record [3; 7] []]}.

Definition merged_2_5 : list (hashable * record) :=
  [(HStr "MN002", Navigator.disabled_record []);
   (HStr "MN005", hardware_record [3; 7] [])].

Definition merged_5_2 : list (hashable * record) :=
  [(HStr "MN005", hardware_record [3; 7] []);
   (HStr "MN002", Navigator.disabled_record [])].

Definition geography_2_5 : gmap pykey (Z * Z) :=
  <[KStr "MN002" := (0, 1)]> (<[KStr "MN005" := (1, 2)]> ∅).

(** A panel that both sources know. *)
Definition merged_full : list (hashable * record) :=
  [(HStr "MN005",
    <["readout_disabled" := [0]]> (hardware_record [3; 7] []))].

End Samples.

(** ** The geographic map (load_geographic_map, lines 146-150) *)

Module Geography.

(** [for j in js]: a list gives its elements, a dict its keys, a string its
    characters; the other values are not iterable. *)
Definition iterate (js : json) : result (list json) :=
  match js with
  | JArr l => Ok l
  | JObj kvs => Ok (JStr <$> kvs.*1)
  | JStr s => Ok ((λ c, JStr (String c EmptyString)) <$> String.list_ascii_of_string s)
  | _ => Error (TypeError ("'" +:+ type_name js +:+ "' object is not iterable"))
  end.

(** One turn of the comprehension of line 149: the key expression, then the
    two components of the value, then the store, which hashes the key. *)
Definition load_entry (rv : gmap pykey (json * json)) (j : json)
    : result (gmap pykey (json * json)) :=
  minnesota ← getitem j "minnesota";
  plane ← getitem j "plane";
  panel ← getitem j "panel";
  '(key, _) ← label_of minnesota;
  Ok (<[key := (plane, panel)]> rv).

(** Line 149, on the value [js] that [json.load] returned. *)
Definition load_geographic_map (js : json) : result (gmap pykey (json * json)) :=
  l ← iterate js;
  for_each load_entry ∅ l.

(** The key of a record of the mapping file, when it has a usable one. *)
Definition entry_key (j : json) : option pykey :=
  match getitem j "minnesota" with
  | Ok minnesota =>
      match label_of minnesota with
      | Ok (key, _) => Some key
      | Error _ => None
      end
  | Error _ => None
  end.

(** The coordinates of a record of the mapping file. *)
Definition entry_value (j : json) : option (json * json) :=
  match getitem j "plane", getitem j "panel" with
  | Ok plane, Ok panel => Some (plane, panel)
  | _, _ => None
  end.

End Geography.

(** * Properties *)

(** ** Text *)

Lemma string_app_assoc (s1 s2 s3 : string) :
  (s1 +:+ s2) +:+ s3 = s1 +:+ s2 +:+ s3.
Proof.
  induction s1 as [|c s1 IH]; [done|].
  unfold String.app in *. simpl. by rewrite IH.
Qed.

Lemma string_app_nil_r (s : string) : s +:+ "" = s.
Proof.
  induction s as [|c s IH]; [done|].
  unfold String.app in *. simpl. by rewrite IH.
Qed.

Lemma strip_prefix_Some lit s rest :
  strip_prefix lit s = Some rest ↔ s = lit +:+ rest.
Proof.
  revert s. induction lit as [|c lit IH]; intros s.
  - simpl. unfold String.app. simpl. split; congruence.
  - unfold String.app. simpl. destruct s as [|d s]; [done|].
    case_decide as Hcd.
    + subst d. rewrite IH. unfold String.app. split; congruence.
    + split; [done|]. congruence.
Qed.

Lemma occursb_true sub s : occursb sub s = true ↔ occurs sub s.
Proof.
  induction s as [|c s IH].
  - simpl. destruct (strip_prefix sub "") as [rest|] eqn:Hs.
    + split; [|done]. intros _. apply strip_prefix_Some in Hs.
      by exists "", rest.
    + split; [done|]. intros ([|c pre] & post & H).
      * apply (strip_prefix_Some sub "" post) in H. congruence.
      * unfold String.app in H. done.
  - simpl. destruct (strip_prefix sub (String c s)) as [rest|] eqn:Hs.
    + split; [|done]. intros _. apply strip_prefix_Some in Hs.
      by exists "", rest.
    + rewrite IH. split.
      * intros (pre & post & ->). by exists (String c pre), post.
      * intros ([|c' pre] & post & H).
        -- apply (strip_prefix_Some sub _ post) in H. congruence.
        -- unfold String.app in H. simpl in H. injection H as -> ->.
           by exists pre, post.
Qed.

Lemma occursb_false sub s : occursb sub s = false → ¬ occurs sub s.
Proof. intros H Ho%occursb_true. congruence. Qed.

(** ** Loops *)

Section for_each_facts.
Context {A S : Type} (body : S → A → result S).

Lemma for_each_app s xs ys :
  for_each body s (xs ++ ys) = s' ← for_each body s xs; for_each body s' ys.
Proof.
  revert s. induction xs as [|x xs IH]; intros s; [done|].
  simpl. destruct (body s x) as [s1|e]; simpl; [apply IH|done].
Qed.

(** An exception raised by the body after a prefix went through is the
    outcome of the whole loop. *)
Lemma for_each_raises s s' xs x ys e :
  for_each body s xs = Ok s' → body s' x = Error e →
  for_each body s (xs ++ x :: ys) = Error e.
Proof.
  intros Hxs Hx. rewrite for_each_app, Hxs. simpl. by rewrite Hx.
Qed.

End for_each_facts.

(** ** The object extractor *)

Module ExtractorFacts.
Import Extractor.

Local Arguments depth : simpl never.

Lemma depth_cons b l : depth (b :: l) = delta b + depth l.
Proof. reflexivity. Qed.

Lemma depth_app l1 l2 : depth (l1 ++ l2) = depth l1 + depth l2.
Proof.
  induction l1 as [|b l1 IH]; [reflexivity|].
  rewrite <- app_comm_cons, !depth_cons, IH. lia.
Qed.

Lemma delta_range b : -1 ≤ delta b ≤ 1.
Proof. unfold delta. repeat case_decide; lia. Qed.

(** One turn of the loop adds [delta b] to the score. *)
Lemma scan_cons b rest idx score :
  scan (b :: rest) idx score =
  if decide (score + delta b < 1) then S idx
  else scan rest (S idx) (score + delta b).
Proof.
  simpl. unfold delta.
  destruct (decide (b = plus)); [done|].
  destruct (decide (b = mnus)); [done|].
  by replace (score + 0) with score by lia.
Qed.

(** The loop ends on the last byte of [region] when the score first drops
    below one there. *)
Lemma scan_stops_at region : ∀ trailing idx score,
  region ≠ [] →
  (∀ k, (0 < k < length region)%nat → 1 ≤ score + depth (take k region)) →
  score + depth region < 1 →
  scan (region ++ trailing) idx score = (idx + length region)%nat.
Proof.
  induction region as [|b region IH]; intros trailing idx score Hne Hpos Hend;
    [done|].
  rewrite <- app_comm_cons, scan_cons. rewrite depth_cons in Hend.
  destruct region as [|b' region'].
  - change (depth []) with 0 in Hend. rewrite decide_True by lia. simpl. lia.
  - rewrite decide_False.
    + rewrite IH; [simpl; lia|done| |lia].
      intros k Hk. specialize (Hpos (S k)). simpl in Hpos.
      rewrite depth_cons in Hpos. simpl in Hk. lia.
    + specialize (Hpos 1%nat). simpl in Hpos. rewrite depth_cons in Hpos.
      change (depth []) with 0 in Hpos. lia.
Qed.

(** The loop runs to the end of the buffer when the score never drops
    below one. *)
Lemma scan_runs_out rest : ∀ idx score,
  (∀ k, (0 < k ≤ length rest)%nat → 1 ≤ score + depth (take k rest)) →
  scan rest idx score = (idx + length rest)%nat.
Proof.
  induction rest as [|b rest IH]; intros idx score Hpos; [simpl; lia|].
  rewrite scan_cons, decide_False.
  - rewrite IH; [simpl; lia|].
    intros k Hk. specialize (Hpos (S k)). simpl in Hpos.
    rewrite depth_cons in Hpos. lia.
  - specialize (Hpos 1%nat). simpl in Hpos.
    rewrite depth_cons, take_0 in Hpos.
    change (depth []) with 0 in Hpos. lia.
Qed.

(** From the open brace on, a depth that is never zero is at least one. *)
Lemma depth_positive l n :
  head l = Some plus → (n ≤ S (length l))%nat →
  (∀ k, (0 < k < n)%nat → depth (take k l) ≠ 0) →
  ∀ k, (0 < k < n)%nat → 1 ≤ depth (take k l).
Proof.
  intros Hhd Hn Hnz k. induction k as [|k IH]; [lia|]. intros Hk.
  destruct (lookup_lt_is_Some_2 l k) as [b Hb]; [lia|].
  pose proof (Hnz (S k) Hk) as Hne.
  rewrite (take_S_r _ _ _ Hb), depth_app in *.
  rewrite depth_cons in *. change (depth []) with 0 in *.
  destruct k as [|k].
  - destruct l as [|b0 l]; [done|]. simpl in Hhd, Hb.
    assert (b = plus) as -> by congruence. rewrite take_0.
    change (depth []) with 0. unfold delta. rewrite decide_True by done. lia.
  - pose proof (delta_range b). specialize (IH ltac:(lia)). lia.
Qed.

Lemma slice_drop (buff : list byte) : 
  slice buff start (start + length (drop start buff)) = drop start buff.
Proof.
  unfold slice. replace (start + _ - start)%nat with (length (drop start buff)) by lia.
  apply firstn_all.
Qed.

(** C1: a buffer made of a 16-byte header, a region that opens with a brace
    and whose depth counter first returns to zero on its last byte, and any
    trailing bytes: the extractor returns exactly the region. *)
Theorem extract_balanced_region (header region trailing : list byte) :
  length header = 16%nat →
  head region = Some plus →
  depth region = 0 →
  (∀ k, (0 < k < length region)%nat → depth (take k region) ≠ 0) →
  extract_object (header ++ region ++ trailing) = Ok region.
Proof.
  intros Hlen Hhd Hbal Hfirst. unfold extract_object.
  assert (drop start (header ++ region ++ trailing) = region ++ trailing)
    as Hdrop by (unfold start; rewrite <- Hlen; apply drop_app_length).
  assert ((header ++ region ++ trailing) !! start = Some plus) as ->.
  { unfold start. rewrite lookup_app_r by lia. rewrite Hlen, Nat.sub_diag.
    destruct region; [done|]. simpl in *. congruence. }
  rewrite decide_False by (intros H; by apply H).
  cbv zeta. rewrite Hdrop. f_equal. unfold slice. rewrite Hdrop.
  rewrite scan_stops_at.
  - replace (start + length region - start)%nat with (length region) by lia.
    by rewrite take_app_length.
  - by destruct region.
  - intros k Hk. pose proof (depth_positive region (length region) Hhd
      ltac:(lia) Hfirst k Hk). lia.
  - lia.
Qed.

Import Samples.

Lemma extract_balanced_region_witness :
  extract_object (header ++ balanced_region ++ trailing_bytes) =
    Ok balanced_region.
Proof.
  apply (extract_balanced_region header balanced_region trailing_bytes).
  - reflexivity.
  - reflexivity.
  - reflexivity.
  - intros k Hk. change (length balanced_region) with 7%nat in Hk.
    assert (k ∈ seq 1 6) as Hin by (apply elem_of_seq; lia).
    clear Hk. revert k Hin. apply Forall_forall. by repeat constructor.
Defined.

(** C2 (amended): the extractor raises exactly when the buffer has no byte
    at offset 16, which is an index error, or has there a byte other than
    the open brace, which is the malformed-configuration exception; a
    buffer with the open brace at offset 16 whose count never returns to
    zero raises nothing, and the extractor returns all its bytes from
    offset 16 on. *)
Theorem extract_failures (buff : list byte) :
  (∀ e, extract_object buff = Error e ↔
        (buff !! start = None ∧ e = IndexError "index out of range")
        ∨ (∃ b, buff !! start = Some b ∧ b ≠ plus ∧
                e = Exception "malformed midas configuration"))
  ∧ (buff !! start = Some plus →
     (∀ k, (0 < k ≤ length (drop start buff))%nat →
           depth (take k (drop start buff)) ≠ 0) →
     extract_object buff = Ok (drop start buff)).
Proof.
  split.
  - intros e. unfold extract_object.
    destruct (buff !! start) as [b|] eqn:Hb.
    + destruct (decide (b ≠ plus)) as [Hne|Heq]; split.
      * intros [= <-]. right. by exists b.
      * intros [[? _]|(b' & [= <-] & _ & ->)]; done.
      * done.
      * intros [[? _]|(b' & [= <-] & Hne & _)]; done.
    + split.
      * intros [= <-]. by left.
      * intros [[_ ->]|(b & ? & _)]; done.
  - intros Hb Hnz. unfold extract_object. rewrite Hb.
    rewrite decide_False by (intros H; by apply H).
    cbv zeta. f_equal. rewrite scan_runs_out; [apply slice_drop|].
    intros k Hk.
    assert (head (drop start buff) = Some plus) as Hhd.
    { by rewrite head_lookup, lookup_drop, Nat.add_0_r. }
    pose proof (depth_positive (drop start buff)
      (S (length (drop start buff))) Hhd (le_n _)
      (λ j Hj, Hnz j ltac:(lia)) k ltac:(lia)). lia.
Qed.

Lemma extract_failures_witness :
  extract_object open_buffer = Ok [plus].
Proof.
  refine (proj2 (extract_failures open_buffer) eq_refl _).
  intros k Hk. change (length (drop start open_buffer)) with 1%nat in Hk.
  assert (k = 1%nat) as -> by lia. by vm_compute.
Defined.

Lemma unbalanced_object_returned :
  unbalanced_buffer !! start = Some plus
  ∧ Forall (λ k, depth (take k (drop start unbalanced_buffer)) ≠ 0)
           (seq 1 (length (drop start unbalanced_buffer)))
  ∧ extract_object unbalanced_buffer = Ok unbalanced_tail.
Proof.
  split_and!; [reflexivity| |reflexivity].
  by repeat constructor.
Qed.

End ExtractorFacts.

(** ** The configuration navigator *)

Module NavigatorFacts.
Import Navigator.

(** *** The readout mask *)






(** *** One panel node *)

Lemma visit_panel_duplicate rv vpn name key label :
  getitem vpn "Name" = Ok name → label_of name = Ok (key, label) →
  key ∈ dom rv →
  visit_panel rv vpn = Error (Exception ("encountered duplicate panel " +:+ label)).
Proof.
  intros Hname Hlabel Hin. unfold visit_panel. rewrite Hname. simpl.
  rewrite Hlabel. simpl. by rewrite decide_True.
Qed.



(** What a visit that goes through has checked and done. *)
Lemma visit_panel_ok rv vpn rv' :
  visit_panel rv vpn = Ok rv' →
  ∃ key disabled,
    panel_passes vpn (key, disabled) ∧ (key ∉ dom rv) ∧
    rv' = <[key := disabled_record disabled]> rv.
Proof.
  unfold visit_panel. intros H.
  destruct (getitem vpn "Name") as [name|] eqn:Hname; [|done]. simpl in H.
  destruct (label_of name) as [[key label]|] eqn:Hlabel; [|done]. simpl in H.
  case_decide as Hin; [done|].
  destruct (read_mask rv key vpn) as [rv1|] eqn:Hread; [|done].
  injection H as ->. unfold read_mask in Hread.
  destruct (getitem vpn "ch_mask") as [enabled|] eqn:Hmask; [|done].
  simpl in Hread. destruct (len enabled) as [n|] eqn:Hlen; [|done].
  simpl in Hread. case_decide as Hn; [done|].
  assert (n = 96%nat) as -> by (destruct (decide (n = 96%nat)); [done|contradiction]).
  destruct (disabled_channels enabled 96) as [d|] eqn:Hd; [|done].
  simpl in Hread. injection Hread as <-.
  exists key, d. split; [|done].
  exists name, label, enabled. done.
Qed.

(** *** Reaching a panel node *)

Lemma navigate_tracker configuration sts :
  descend configuration = Ok (JObj sts) →
  navigate configuration = visit_stations ∅ sts.
Proof. intros H. unfold navigate. by rewrite H. Qed.

(** The outcome of a visit that raises is the outcome of the traversal. *)
Lemma reaches_raises sts rv vpn e :
  reaches sts rv vpn → visit_panel rv vpn = Error e →
  visit_stations ∅ sts = Error e.
Proof.
  intros (sts1 & kst & pls1 & kpl & pns1 & kpn & pns2 & pls2 & sts2 & rv1 &
          rv2 & -> & Hst & Hpl & Hpn & Hsts & Hpls & Hpns) Hvisit.
  unfold visit_stations. eapply for_each_raises; [exact Hsts|].
  rewrite Hst. simpl.
  unfold visit_planes. eapply for_each_raises; [exact Hpls|].
  rewrite Hpl. simpl.
  unfold visit_panels. eapply for_each_raises; [exact Hpns|].
  by rewrite Hpn.
Qed.

(** *** What a traversal that goes through has collected *)

Lemma record_of_keys entries : (record_of <$> entries).*1 = entries.*1.
Proof. by rewrite <- list_fmap_compose. Qed.

Lemma collects_skip : collects Ok [].
Proof.
  intros rv rv' [= ->]. exists [].
  split_and!; [constructor|constructor|by intros k ?%elem_of_nil|].
  simpl. by rewrite (left_id_L ∅ (∪)).
Qed.

Lemma collects_panel vpn : collects (λ rv, visit_panel rv vpn) [vpn].
Proof.
  intros rv rv' (key & d & Hpass & Hnin & ->)%visit_panel_ok.
  exists [(key, d)]. split_and!.
  - by repeat constructor.
  - simpl. apply NoDup_singleton.
  - simpl. intros k ->%list_elem_of_singleton. done.
  - simpl. rewrite <- insert_union_l. by rewrite (left_id_L ∅ (∪)).
Qed.

Lemma collects_then f g ps qs :
  collects f ps → collects g qs →
  collects (λ rv, rv1 ← f rv; g rv1) (ps ++ qs).
Proof.
  intros Hf Hg rv rv' H.
  destruct (f rv) as [rv1|] eqn:Hf1; [|done]. simpl in H.
  destruct (Hf _ _ Hf1) as (es1 & Hp1 & Hnd1 & Hnew1 & ->).
  destruct (Hg _ _ H) as (es2 & Hp2 & Hnd2 & Hnew2 & ->).
  assert (∀ k, k ∈ es2.*1 → (k ∉ es1.*1) ∧ (k ∉ dom rv)) as Hnew2'.
  { intros k Hk. specialize (Hnew2 k Hk).
    rewrite dom_union_L, dom_list_to_map_L, record_of_keys in Hnew2.
    apply not_elem_of_union in Hnew2 as [Hk1 Hk2].
    by rewrite elem_of_list_to_set in Hk1. }
  exists (es1 ++ es2). split_and!.
  - by apply Forall2_app.
  - rewrite fmap_app. apply NoDup_app. split_and!; [done| |done].
    intros k Hk1 Hk2. by destruct (Hnew2' k Hk2).
  - rewrite fmap_app. intros k [Hk|Hk]%elem_of_app; [by apply Hnew1|].
    by destruct (Hnew2' k Hk).
  - rewrite fmap_app, list_to_map_app, <- (assoc_L (∪)).
    rewrite (assoc_L (∪) (list_to_map (record_of <$> es2))).
    rewrite (map_union_comm (list_to_map (record_of <$> es2))); [by rewrite (assoc_L (∪))|].
    apply map_disjoint_dom. rewrite !dom_list_to_map_L, !record_of_keys.
    intros k Hk2%elem_of_list_to_set Hk1%elem_of_list_to_set.
    by destruct (Hnew2' k Hk2).
Qed.

Lemma collects_ext f g ps :
  (∀ rv, f rv = g rv) → collects f ps → collects g ps.
Proof. intros Hfg Hf rv rv' H. apply Hf. by rewrite Hfg. Qed.

Lemma collects_for_each {A} (body : conditions_map → A → result conditions_map)
    (sel : A → list json) (xs : list A) :
  (∀ x, collects (λ rv, body rv x) (sel x)) →
  collects (λ rv, for_each body rv xs) (x ← xs; sel x).
Proof.
  intros Hbody. induction xs as [|x xs IH]; [apply collects_skip|].
  apply (collects_then _ _ _ _ (Hbody x) IH).
Qed.

Lemma collects_panels pns :
  collects (λ rv, visit_panels rv pns) (panels_of_plane pns).
Proof.
  apply (collects_for_each _ (λ '(kpn, vpn), if match_panel kpn then [vpn] else [])).
  intros [kpn vpn]. destruct (match_panel kpn);
    [apply collects_panel|apply collects_skip].
Qed.

Lemma collects_items (v : json) (f : conditions_map → list (string * json) → result conditions_map)
    (sel : list (string * json) → list json) :
  (∀ kvs, collects (λ rv, f rv kvs) (sel kvs)) →
  collects (λ rv, kvs ← items v; f rv kvs)
           (match v with JObj kvs => sel kvs | _ => [] end).
Proof.
  intros Hf. destruct v; try (intros rv rv' H; done). apply Hf.
Qed.

Lemma collects_planes pls :
  collects (λ rv, visit_planes rv pls) (panels_of_station pls).
Proof.
  apply (collects_for_each _
    (λ '(kpl, vpl), if match_plane kpl
                    then match vpl with JObj pns => panels_of_plane pns | _ => [] end
                    else [])).
  intros [kpl vpl]. destruct (match_plane kpl); [|apply collects_skip].
  apply (collects_items vpl visit_panels), collects_panels.
Qed.

Lemma collects_stations sts :
  collects (λ rv, visit_stations rv sts) (matched_panels sts).
Proof.
  apply (collects_for_each _
    (λ '(kst, vst), if match_station kst
                    then match vst with JObj pls => panels_of_station pls | _ => [] end
                    else [])).
  intros [kst vst]. destruct (match_station kst); [|apply collects_skip].
  apply (collects_items vst visit_planes), collects_planes.
Qed.


Lemma bind_ok {A B} (r : result A) (k : A → result B) b :
  r ≫= k = Ok b → ∃ a, r = Ok a ∧ k a = Ok b.
Proof. destruct r as [a|e]; [|done]. intros H. by exists a. Qed.





(** *** The claims about the navigator *)


(** C6 (amended): when the traversal reaches a matched panel node whose Name
    is already recorded, the navigator fails with the duplicate-panel
    exception carrying the label; and a navigator that goes through has
    visited matched panel nodes with pairwise distinct labels, which are
    exactly the keys of its output, one key per node. *)
Theorem duplicate_label_rejected configuration sts :
  descend configuration = Ok (JObj sts) →
  (∀ rv vpn name key label,
     reaches sts rv vpn →
     getitem vpn "Name" = Ok name → label_of name = Ok (key, label) →
     key ∈ dom rv →
     navigate configuration =
       Error (Exception ("encountered duplicate panel " +:+ label)))
  ∧ (∀ out, navigate configuration = Ok out →
       ∃ entries,
         Forall2 panel_passes (matched_panels sts) entries ∧
         NoDup entries.*1 ∧
         dom out = list_to_set entries.*1 ∧
         size out = length (matched_panels sts)).
Proof.
  intros Hdesc. rewrite (navigate_tracker _ _ Hdesc). split.
  - intros rv vpn name key label Hreach Hname Hlabel Hin.
    eapply reaches_raises; [done|]. by eapply visit_panel_duplicate.
  - intros out Hout.
    destruct (collects_stations sts _ _ Hout) as (es & Hpass & Hnd & _ & ->).
    exists es. rewrite (right_id_L ∅ (∪)). split_and!; [done|done| |].
    + by rewrite dom_list_to_map_L, record_of_keys.
    + rewrite map_size_list_to_map by (by rewrite record_of_keys).
      rewrite length_fmap. symmetry. by eapply Forall2_length.
Qed.

Import Samples.

(** The second panel of a two-panel tree is reached once the first went
    through. *)
Lemma reaches_second p0 p1 rv :
  visit_panel ∅ p0 = Ok rv →
  reaches (one_plane [("Panel_00", p0); ("Panel_01", p1)]) rv p1.
Proof.
  intros H0.
  exists [], "Station_00", [], "Plane_00", [("Panel_00", p0)], "Panel_01",
         [], [], [], ∅, ∅.
  split_and!; try reflexivity.
  unfold visit_panels. cbn [for_each].
  change (match_panel "Panel_00") with true. cbv iota. by rewrite H0.
Qed.

Lemma reaches_first p0 pns :
  reaches (one_plane (("Panel_00", p0) :: pns)) ∅ p0.
Proof.
  exists [], "Station_00", [], "Plane_00", [], "Panel_00", pns, [], [], ∅, ∅.
  split_and!; reflexivity.
Qed.

Lemma falsy_indices_mask_3_7 : falsy_indices mask_3_7 = [3; 7].
Proof. reflexivity. Qed.

Lemma visit_sound_panel :
  visit_panel ∅ (panel_node "MN001" mask_3_7) =
    Ok {[KStr "MN001" := disabled_record [3; 7]]}.
Proof. vm_compute. reflexivity. Qed.



Lemma duplicate_label_rejected_witness :
  navigate good_then_repeated =
    Error (Exception "encountered duplicate panel MN001").
Proof.
  refine (proj1 (duplicate_label_rejected good_then_repeated _ eq_refl)
            {[KStr "MN001" := disabled_record [3; 7]]}
            (panel_node "MN001" mask_on) (JStr "MN001") (KStr "MN001") "MN001"
            _ eq_refl eq_refl _).
  - apply reaches_second, visit_sound_panel.
  - rewrite dom_singleton_L. by apply elem_of_singleton.
Defined.

Lemma duplicate_check_after_earlier_mask :
  matched_panels (one_plane [("Panel_00", panel_node "MN001" []);
                             ("Panel_01", panel_node "MN001" mask_on)])
    = [panel_node "MN001" []; panel_node "MN001" mask_on]
  ∧ navigate short_then_repeated =
      Error (Exception "exception: MN001: malformed readout mask").
Proof. split; vm_compute; reflexivity. Qed.

End NavigatorFacts.

(** ** The hardware condition fetcher *)

Module FetcherFacts.
Import Fetcher.

Lemma or_chain_cons p q ps :
  or_chain (p :: q :: ps) = predicate p +:+ " OR" +:+ or_chain (q :: ps).
Proof. reflexivity. Qed.

(** The turns of the loop after the first one. *)
Lemma query_loop_tail ps : ∀ p i acc,
  (0 < i)%nat →
  foldl (λ rv '(i, panel),
           let rv := if decide (0 < i)%nat then rv +:+ " OR" else rv in
           rv +:+ " panel_id = " +:+ pretty panel)
        (acc +:+ predicate p) (zip (seq i (length ps)) ps)
  = acc +:+ or_chain (p :: ps).
Proof.
  induction ps as [|q ps IH]; intros p i acc Hi; [done|].
  cbn [length seq zip zip_with foldl]. rewrite decide_True by done. cbv zeta.
  change (?s +:+ " panel_id = " +:+ pretty q) with (s +:+ predicate q).
  rewrite (IH q (S i)) by lia.
  by rewrite or_chain_cons, !string_app_assoc.
Qed.

(** C7: for a nonempty list of panel ids the query is the SELECT of the
    three columns, WHERE, one predicate [panel_id = N] per id in the order
    given, repeated ids included, with OR between them, and the ORDER BY
    clause at the end; for the empty list the query is the SELECT followed
    by the ORDER BY clause, and WHERE does not occur in it. *)
Theorem build_hardware_query_shape (panels : list Z) :
  (panels ≠ [] →
     build_hardware_query panels =
       select_clause +:+ " WHERE" +:+ or_chain panels +:+ order_clause)
  ∧ build_hardware_query [] = select_clause +:+ order_clause
  ∧ ¬ occurs "WHERE" (build_hardware_query [])
  ∧ (∀ p q ps, or_chain (p :: q :: ps) =
               predicate p +:+ " OR" +:+ or_chain (q :: ps))
  ∧ (∀ p, or_chain [p] = " panel_id = " +:+ pretty p).
Proof.
  split_and!; [|done|by apply occursb_false|done|done].
  destruct panels as [|p ps]; [done|]. intros _.
  unfold build_hardware_query. rewrite decide_True by (simpl; lia).
  cbn [length seq zip zip_with foldl]. rewrite decide_False by lia. cbv zeta.
  change (?s +:+ " panel_id = " +:+ pretty p) with (s +:+ predicate p).
  rewrite (query_loop_tail ps p 1) by lia.
  unfold select_clause, order_clause. by rewrite !string_app_assoc.
Qed.

Lemma build_hardware_query_shape_witness :
  build_hardware_query [3; 1; 3; -2] =
    "SELECT panel_id,missing_straws,missing_wires from qc.panels WHERE panel_id = 3 OR panel_id = 1 OR panel_id = 3 OR panel_id = -2 ORDER BY panel_id ASC;".
Proof.
  exact (proj1 (build_hardware_query_shape [3; 1; 3; -2]) ltac:(discriminate)).
Defined.

End FetcherFacts.

(** ** The condition reconciler *)

Module ReconcilerFacts.
Import Reconciler.

(** The loop that fills [rv] key by key. *)
Lemma lookup_fill (f : pykey → record) (l : list pykey) : ∀ (rv : conditions_map) k,
  foldl (λ rv key, <[key := f key]> rv) rv l !! k =
    if decide (k ∈ l) then Some (f k) else rv !! k.
Proof.
  induction l as [|x l IH]; intros rv k.
  - cbn [foldl]. case_decide as H; [by apply elem_of_nil in H|done].
  - cbn [foldl]. rewrite IH. destruct (decide (k ∈ l)) as [Hl|Hl].
    + rewrite decide_True; [done|by right].
    + destruct (decide (k = x)) as [->|Hx].
      * rewrite decide_True by left. by rewrite lookup_insert_eq.
      * rewrite decide_False by (intros [?|?]%elem_of_cons; done).
        by rewrite lookup_insert_ne.
Qed.

Lemma lookup_reconcile midas hardware allowed k :
  reconcile midas hardware allowed !! k =
    if decide (k ∈ (dom midas ∪ dom hardware) ∩ allowed_set allowed)
    then Some (merged_record midas hardware k) else None.
Proof.
  unfold reconcile. rewrite lookup_fill, lookup_empty.
  destruct (decide (k ∈ elements _)) as [Hk|Hk]; rewrite elem_of_elements in Hk.
  - by rewrite decide_True.
  - by rewrite decide_False.
Qed.

Lemma dom_reconcile midas hardware allowed :
  dom (reconcile midas hardware allowed) =
    (dom midas ∪ dom hardware) ∩ allowed_set allowed.
Proof.
  apply set_eq. intros k. rewrite elem_of_dom, lookup_reconcile.
  case_decide; [by split; eauto|]. split; [by intros [? ?]|done].
Qed.

Lemma elem_of_default_allowed k :
  k ∈ default_allowed ↔ ∃ i, 1 ≤ i ≤ 999 ∧ k = KStr (panel_label i).
Proof.
  unfold default_allowed. rewrite elem_of_list_to_set, list_elem_of_fmap.
  split.
  - intros (i & -> & Hi%elem_of_seq). exists (Z.of_nat i). split; [lia|done].
  - intros (i & Hi & ->). exists (Z.to_nat i). rewrite Z2Nat.id by lia.
    split; [done|]. apply elem_of_seq. lia.
Qed.

Lemma panel_label_digits :
  Forall (λ i, panel_label (Z.of_nat i) = "MN" +:+ three_digits i) (seq 1 999).
Proof.
  apply (bool_decide_unpack _). vm_compute. exact I.
Qed.

(** C3: the keys of the reconciled mapping are the keys of either source
    that are in the allow-list, the allow-list being the labels MN001 to
    MN999 when none is given; so a label outside the allow-list is never a
    key of the output, and neither is a label that no source has. *)
Theorem reconcile_keys (midas hardware : conditions_map)
    (allowed : option (list pykey)) :
  dom (reconcile midas hardware allowed) =
    (dom midas ∪ dom hardware) ∩ allowed_set allowed
  ∧ (∀ l, allowed_set (Some l) = list_to_set l)
  ∧ (∀ k, k ∈ allowed_set None ↔
          ∃ i : nat, (1 ≤ i ≤ 999)%nat ∧ k = KStr ("MN" +:+ three_digits i))
  ∧ (∀ k, k ∉ allowed_set allowed → k ∉ dom (reconcile midas hardware allowed))
  ∧ (∀ k, k ∉ dom midas → k ∉ dom hardware →
          k ∉ dom (reconcile midas hardware allowed)).
Proof.
  split_and!; [apply dom_reconcile|done| | |].
  - intros k. simpl. unfold default_allowed.
    rewrite elem_of_list_to_set, list_elem_of_fmap. split.
    + intros (i & -> & Hi). exists i. pose proof Hi as Hi'%elem_of_seq.
      split; [lia|]. f_equal.
      by apply (proj1 (Forall_forall _ _) panel_label_digits).
    + intros (i & Hi & ->). exists i.
      assert (i ∈ seq 1 999) as Hi' by (apply elem_of_seq; lia).
      split; [|done]. f_equal. symmetry.
      by apply (proj1 (Forall_forall _ _) panel_label_digits).
  - intros k Hk. rewrite dom_reconcile, elem_of_intersection. tauto.
  - intros k Hm Hh.
    rewrite dom_reconcile, elem_of_intersection, elem_of_union. tauto.
Qed.

Lemma lookup_update (tmp other : record) field :
  update tmp other !! field =
    match other !! field with Some v => Some v | None => tmp !! field end.
Proof.
  unfold update. rewrite lookup_union.
  destruct (other !! field), (tmp !! field); done.
Qed.

Lemma update_empty_l (other : record) : update ∅ other = other.
Proof. unfold update. apply (right_id_L ∅ (∪)). Qed.

Lemma update_empty_r (tmp : record) : update tmp ∅ = tmp.
Proof. unfold update. apply (left_id_L ∅ (∪)). Qed.

(** C4: the record of a key of the output is what two updates of an empty
    record give, with the navigator's entry first and the fetcher's second,
    an absent entry counting for nothing.  A key of one source has that
    source's record; a key of both has the fields of both, with the
    fetcher's value on a field they share. *)
Theorem reconcile_record (midas hardware : conditions_map)
    (allowed : option (list pykey)) (key : pykey) :
  key ∈ dom (reconcile midas hardware allowed) →
  ∃ merged,
    reconcile midas hardware allowed !! key = Some merged
    ∧ merged = update (update ∅ (default ∅ (midas !! key)))
                      (default ∅ (hardware !! key))
    ∧ (hardware !! key = None → midas !! key = Some merged)
    ∧ (midas !! key = None → hardware !! key = Some merged)
    ∧ (∀ m h, midas !! key = Some m → hardware !! key = Some h →
         dom merged = dom m ∪ dom h
         ∧ (∀ field v, h !! field = Some v → merged !! field = Some v)
         ∧ (∀ field, h !! field = None → merged !! field = m !! field)).
Proof.
  intros Hkey. pose proof Hkey as Hdom.
  rewrite dom_reconcile in Hdom. apply elem_of_intersection in Hdom as [Hsrc _].
  apply elem_of_dom in Hkey as [merged Hmerged]. exists merged.
  split; [done|].
  rewrite lookup_reconcile in Hmerged. case_decide; [|done].
  injection Hmerged as <-. unfold merged_record.
  apply elem_of_union in Hsrc. rewrite !elem_of_dom in Hsrc.
  destruct (midas !! key) as [m|] eqn:Hm, (hardware !! key) as [h|] eqn:Hh;
    simpl.
  - split_and!; [done|done|done|]. intros ? ? [= <-] [= <-].
    rewrite update_empty_l. split_and!.
    + unfold update. by rewrite dom_union_L, (comm_L (∪)).
    + intros field v Hv. by rewrite lookup_update, Hv.
    + intros field Hv. by rewrite lookup_update, Hv.
  - rewrite update_empty_r, !update_empty_l. by split_and!.
  - rewrite !update_empty_l. by split_and!.
  - destruct Hsrc as [[? ?]|[? ?]]; done.
Qed.

Import Samples.

Lemma sample_labels_allowed :
  KStr "MN002" ∈ default_allowed ∧ KStr "MN005" ∈ default_allowed.
Proof.
  split; apply elem_of_default_allowed; [by exists 2|by exists 5].
Qed.

Lemma sample_keys_kept :
  KStr "MN002" ∈ (dom midas_sample ∪ dom hardware_sample) ∩ allowed_set None
  ∧ KStr "MN005" ∈ (dom midas_sample ∪ dom hardware_sample) ∩ allowed_set None.
Proof.
  destruct sample_labels_allowed as [H2 H5].
  unfold midas_sample, hardware_sample. rewrite !dom_singleton_L.
  change (allowed_set None) with default_allowed.
  split; apply elem_of_intersection.
  - split; [|exact H2]. apply elem_of_union_l, elem_of_singleton. reflexivity.
  - split; [|exact H5]. apply elem_of_union_r, elem_of_singleton. reflexivity.
Qed.

(** The two sample sources merge into the two sample items. *)
Lemma reconcile_samples :
  reconcile midas_sample hardware_sample None =
    list_to_map (keyed merged_2_5).
Proof.
  destruct sample_keys_kept as [H2 H5].
  apply map_eq. intros k. rewrite lookup_reconcile.
  destruct (decide (k = KStr "MN002")) as [->|Hk2];
    [|destruct (decide (k = KStr "MN005")) as [->|Hk5]].
  - destruct (decide _) as [_|Hn]; [|exact (False_ind _ (Hn H2))].
    vm_compute. reflexivity.
  - destruct (decide _) as [_|Hn]; [|exact (False_ind _ (Hn H5))].
    vm_compute. reflexivity.
  - destruct (decide _) as [Hin|_].
    + exfalso. apply elem_of_intersection in Hin as [Hin _].
      unfold midas_sample, hardware_sample in Hin.
      rewrite !dom_singleton_L in Hin.
      apply elem_of_union in Hin as [Hin|Hin];
        apply elem_of_singleton in Hin; contradiction.
    + unfold merged_2_5, keyed.
      cbn [fmap list_fmap key_of list_to_map foldr curry fst snd].
      rewrite !lookup_insert_ne by congruence. by rewrite lookup_empty.
Qed.

Lemma reconcile_record_witness :
  reconcile midas_sample hardware_sample None !! KStr "MN002" =
    Some (Navigator.disabled_record []).
Proof.
  destruct (reconcile_record midas_sample hardware_sample None (KStr "MN002"))
    as (merged & Hlookup & _ & Hmidas & _).
  - rewrite dom_reconcile. exact (proj1 sample_keys_kept).
  - rewrite Hlookup. rewrite <- Hmidas; [|vm_compute; reflexivity].
    vm_compute. reflexivity.
Defined.

End ReconcilerFacts.

(** ** The statements sent to the database *)

Section PipelineFacts.
Variable fetch_compressed_midas_configuration :
  string → string → string → Z → result (list byte).
Variable lz4_frame_decompress : list byte → result (list byte).
Variable bytes_decode : list byte → result string.
Variable json_loads : string → result json.
Variable pg_connect : string → result (string → result (list Fetcher.row)).

Local Abbreviation conditions_of :=
  (get_conditions fetch_compressed_midas_configuration lz4_frame_decompress
                  bytes_decode json_loads pg_connect).

Lemma hardware_statements host port user db run :
  (Fetcher.get_hardware_conditions pg_connect host port user db run).1 = []
  ∨ (Fetcher.get_hardware_conditions pg_connect host port user db run).1 =
      [Fetcher.build_hardware_query []].
Proof.
  unfold Fetcher.get_hardware_conditions.
  destruct (pg_connect _); [by right|by left].
Qed.

(** C9: whatever the connection settings and the run, the statements that
    [get_hardware_conditions] hands to the database are the query built from
    no panel list, once when the connection is made: the SELECT with the
    ORDER BY clause, in which WHERE does not occur.  The session is run on
    this very text, and the mapping returned is made of the rows it answers
    with.  [get_conditions] sends the same statement whatever its panel
    filter, to a session that answers without seeing the filter, and the
    filter acts on the result through the reconciler alone. *)
Theorem hardware_query_unfiltered (run : Z) (cfg : config)
    (allowed : option (list pykey)) host port user db :
  Forall (λ q, q = "SELECT panel_id,missing_straws,missing_wires from qc.panels ORDER BY panel_id ASC;"
               ∧ q = Fetcher.build_hardware_query []
               ∧ ¬ occurs "WHERE" q)
         (Fetcher.get_hardware_conditions pg_connect host port user db run).1
  ∧ (∀ session,
       pg_connect ("host=" +:+ host +:+ " port=" +:+ pretty port +:+
                   " user=" +:+ user +:+ " dbname=" +:+ db) = Ok session →
       (Fetcher.get_hardware_conditions pg_connect host port user db run).1 =
         [Fetcher.build_hardware_query []])
  ∧ Forall (λ q, q = Fetcher.build_hardware_query [])
           (conditions_of run cfg allowed).1
  ∧ (∀ allowed', (conditions_of run cfg allowed').1 =
                 (conditions_of run cfg allowed).1)
  ∧ (∀ out, (conditions_of run cfg allowed).2 = Ok out →
       ∃ midas hardware,
         (∀ allowed', (conditions_of run cfg allowed').2 =
                      Ok (Reconciler.reconcile midas hardware allowed'))
         ∧ dom out = (dom midas ∪ dom hardware) ∩ Reconciler.allowed_set allowed)
  ∧ (∀ session,
       pg_connect ("host=" +:+ host +:+ " port=" +:+ pretty port +:+
                   " user=" +:+ user +:+ " dbname=" +:+ db) = Ok session →
       Fetcher.get_hardware_conditions pg_connect host port user db run =
         ([ "SELECT panel_id,missing_straws,missing_wires from qc.panels ORDER BY panel_id ASC;" ],
          rows ← session "SELECT panel_id,missing_straws,missing_wires from qc.panels ORDER BY panel_id ASC;";
          Ok (Fetcher.collect_rows rows)))
  ∧ (∀ e,
       pg_connect ("host=" +:+ host +:+ " port=" +:+ pretty port +:+
                   " user=" +:+ user +:+ " dbname=" +:+ db) = Error e →
       Fetcher.get_hardware_conditions pg_connect host port user db run =
         ([], Error e))
  ∧ (∀ midas session,
       get_midas_conditions fetch_compressed_midas_configuration
         lz4_frame_decompress bytes_decode json_loads
         (midas_host cfg) (midas_base cfg) (midas_pattern cfg) run = Ok midas →
       pg_connect ("host=" +:+ pg_host cfg +:+ " port=" +:+
                   pretty (pg_port cfg) +:+ " user=" +:+ pg_user cfg +:+
                   " dbname=" +:+ pg_db cfg) = Ok session →
       conditions_of run cfg allowed =
         ([ "SELECT panel_id,missing_straws,missing_wires from qc.panels ORDER BY panel_id ASC;" ],
          rows ← session "SELECT panel_id,missing_straws,missing_wires from qc.panels ORDER BY panel_id ASC;";
          Ok (Reconciler.reconcile midas (Fetcher.collect_rows rows) allowed))).
Proof.
  assert (∀ q, q = Fetcher.build_hardware_query [] →
    q = "SELECT panel_id,missing_straws,missing_wires from qc.panels ORDER BY panel_id ASC;"
    ∧ q = Fetcher.build_hardware_query [] ∧ ¬ occurs "WHERE" q) as Hq.
  { intros q ->. split_and!; [done|done|by apply occursb_false]. }
  split_and!.
  - destruct (hardware_statements host port user db run) as [-> | ->];
      [constructor|]. constructor; [by apply Hq|constructor].
  - intros session Hs. unfold Fetcher.get_hardware_conditions. by rewrite Hs.
  - unfold get_conditions.
    destruct (get_midas_conditions _ _ _ _ _ _ _ _); [|constructor].
    pose proof (hardware_statements (pg_host cfg) (pg_port cfg) (pg_user cfg)
                  (pg_db cfg) run) as Hs.
    destruct (Fetcher.get_hardware_conditions _ _ _ _ _ _) as [sent r].
    simpl in *. destruct Hs as [-> | ->]; repeat constructor.
  - intros allowed'. unfold get_conditions.
    destruct (get_midas_conditions _ _ _ _ _ _ _ _); [|done].
    by destruct (Fetcher.get_hardware_conditions _ _ _ _ _ _).
  - intros out. unfold get_conditions.
    destruct (get_midas_conditions _ _ _ _ _ _ _ _) as [midas|]; [|done].
    destruct (Fetcher.get_hardware_conditions _ _ _ _ _ _) as [sent [hardware|]];
      [|done].
    simpl. intros [= <-]. exists midas, hardware. split; [done|].
    apply ReconcilerFacts.dom_reconcile.
  - intros session Hs. unfold Fetcher.get_hardware_conditions.
    rewrite Hs. reflexivity.
  - intros e He. unfold Fetcher.get_hardware_conditions. by rewrite He.
  - intros midas session Hm Hs. unfold get_conditions.
    rewrite Hm. unfold Fetcher.get_hardware_conditions. rewrite Hs.
    cbn. by destruct (session _).
Qed.

End PipelineFacts.

(** ** The table emitter *)

Module EmitterFacts.
Import Emitter.

Lemma result_unit_cases (r : result unit) : r = Ok () ∨ ∃ e, r = Error e.
Proof. destruct r as [[]|e]; eauto. Qed.

Section for_emit_facts.
Context {A : Type} (body : A → emitted).

(** A loop whose turns all end normally writes the lines of its turns one
    after the other. *)
Lemma for_emit_all_ok (lines : A → list string) xs :
  (∀ x, x ∈ xs → body x = (lines x, Ok ())) →
  for_emit body xs = (x ← xs; lines x, Ok ()).
Proof.
  induction xs as [|x xs IH]; intros Hall; [done|].
  cbn [for_emit]. rewrite (Hall x) by left.
  rewrite IH by (intros y Hy; apply Hall; by right). done.
Qed.

Lemma for_emit_ok_iff xs :
  (for_emit body xs).2 = Ok () ↔ ∀ x, x ∈ xs → (body x).2 = Ok ().
Proof.
  induction xs as [|x xs IH].
  - split; [by intros _ x ?%elem_of_nil|done].
  - cbn [for_emit]. destruct (body x) as [out [[]|e]] eqn:Hx.
    + destruct (for_emit body xs) as [out' r]. cbn [snd] in *.
      rewrite IH. split.
      * intros Hxs y [->|Hy]%elem_of_cons; [by rewrite Hx|by apply Hxs].
      * intros Hall y Hy. apply Hall. by right.
    + cbn [snd]. split; [done|]. intros Hall.
      specialize (Hall x ltac:(left)). by rewrite Hx in Hall.
Qed.

Lemma for_emit_error xs e :
  (for_emit body xs).2 = Error e → ∃ x, x ∈ xs ∧ (body x).2 = Error e.
Proof.
  induction xs as [|x xs IH]; [done|].
  cbn [for_emit]. destruct (body x) as [out [[]|e']] eqn:Hx.
  - destruct (for_emit body xs) as [out' r]. cbn [snd] in *.
    intros (y & Hy & Hey)%IH. exists y. split; [by right|done].
  - cbn [snd]. intros [= ->]. exists x. split; [left|by rewrite Hx].
Qed.
End for_emit_facts.

Lemma write_panel_ok geography label lookup minnesota collections :
  (write_panel geography label lookup (minnesota, collections)).2 = Ok () ↔
  is_Some (geography !! key_of minnesota) ∧ is_Some (collections !! lookup).
Proof.
  unfold write_panel.
  destruct (geography !! key_of minnesota) as [[plane panel]|];
    [destruct (collections !! lookup)|]; cbn [snd]; split;
    try done; try (by intros [[? ?] [? ?]]); by eauto.
Qed.

Lemma write_panel_lines geography label lookup item :
  (write_panel geography label lookup item).2 = Ok () →
  write_panel geography label lookup item =
    (panel_lines geography label lookup item, Ok ()).
Proof.
  destruct item as [minnesota collections]. unfold write_panel, panel_lines.
  cbn [fst snd].
  destruct (geography !! key_of minnesota) as [[plane panel]|];
    [destruct (collections !! lookup)|]; done.
Qed.

Lemma write_panel_error geography label lookup item e :
  (write_panel geography label lookup item).2 = Error e → ∃ key, e = KeyError key.
Proof.
  destruct item as [minnesota collections]. unfold write_panel.
  destruct (geography !! key_of minnesota) as [[plane panel]|];
    [destruct (collections !! lookup)|]; cbn [snd]; intros [= <-]; eauto.
Qed.

Lemma write_level_snd conditions geography level criteria :
  (write_level conditions geography (level, criteria)).2 =
  (for_emit (write_criterion conditions geography) criteria).2.
Proof.
  unfold write_level. by destruct (for_emit _ criteria).
Qed.

(** The run ends normally exactly when every lookup it makes finds its key. *)
Lemma table_ok_lookups conditions geography scheme :
  (write_offline_table conditions geography scheme).2 = Ok () ↔
  ∀ level criteria label lookup minnesota collections,
    (level, criteria) ∈ scheme → (label, lookup) ∈ criteria →
    (minnesota, collections) ∈ conditions →
    is_Some (geography !! key_of minnesota) ∧ is_Some (collections !! lookup).
Proof.
  unfold write_offline_table. rewrite for_emit_ok_iff. split.
  - intros H level criteria label lookup minnesota collections Hl Hc Hp.
    specialize (H _ Hl). rewrite write_level_snd, for_emit_ok_iff in H.
    specialize (H _ Hc). unfold write_criterion in H.
    rewrite for_emit_ok_iff in H. specialize (H _ Hp).
    by apply write_panel_ok in H.
  - intros H [level criteria] Hl. rewrite write_level_snd, for_emit_ok_iff.
    intros [label lookup] Hc. unfold write_criterion.
    rewrite for_emit_ok_iff. intros [minnesota collections] Hp.
    apply write_panel_ok. by eapply H.
Qed.

Lemma table_error_is_KeyError conditions geography scheme e :
  (write_offline_table conditions geography scheme).2 = Error e →
  ∃ key, e = KeyError key.
Proof.
  unfold write_offline_table.
  intros ([level criteria] & _ & H)%for_emit_error.
  rewrite write_level_snd in H.
  apply for_emit_error in H as ([label lookup] & _ & H).
  unfold write_criterion in H.
  apply for_emit_error in H as (item & _ & H).
  by eapply write_panel_error.
Qed.

Lemma lookups_of_precondition conditions geography scheme :
  (∀ level criteria label lookup minnesota collections,
    (level, criteria) ∈ scheme → (label, lookup) ∈ criteria →
    (minnesota, collections) ∈ conditions →
    is_Some (geography !! key_of minnesota) ∧ is_Some (collections !! lookup))
  ↔ fields_present conditions scheme
    ∧ ((∃ lookup, names_field scheme lookup) → covered conditions geography).
Proof.
  split.
  - intros H. split.
    + intros lookup minnesota collections (level & criteria & label & Hl & Hc) Hp.
      by eapply H.
    + intros (lookup & level & criteria & label & Hl & Hc) minnesota collections Hp.
      by eapply H.
  - intros [Hf Hc] level criteria label lookup minnesota collections Hl Hcr Hp.
    split.
    + eapply Hc; [|done]. exists lookup, level, criteria, label. done.
    + eapply Hf; [|done]. exists level, criteria, label. done.
Qed.

Lemma length_bind_sum {A B} (f : A → list B) (xs : list A) :
  length (x ← xs; f x) = sum_list ((λ x, length (f x)) <$> xs).
Proof.
  induction xs as [|x xs IH]; [done|].
  rewrite bind_cons, length_app, IH. done.
Qed.

Lemma sum_list_ext {A} (f g : A → nat) (xs : list A) :
  (∀ x, x ∈ xs → f x = g x) → sum_list (f <$> xs) = sum_list (g <$> xs).
Proof.
  induction xs as [|x xs IH]; intros H; [done|].
  rewrite !fmap_cons. cbn [sum_list sum_list_with].
  rewrite (H x) by left. rewrite IH; [done|]. intros y Hy. apply H. by right.
Qed.

Lemma level_lines_length conditions geography criteria :
  (∀ label lookup minnesota collections,
     (label, lookup) ∈ criteria → (minnesota, collections) ∈ conditions →
     is_Some (geography !! key_of minnesota) ∧ is_Some (collections !! lookup)) →
  length (level_lines conditions geography criteria) =
    level_count conditions criteria.
Proof.
  intros H. unfold level_lines, level_count. rewrite length_bind_sum.
  apply sum_list_ext. intros [label lookup] Hc. rewrite length_bind_sum.
  apply sum_list_ext. intros [minnesota collections] Hp.
  destruct (H _ _ _ _ Hc Hp) as [[[plane panel] Hg] [straws Hs]].
  unfold panel_lines, field_length. cbn [fst snd]. rewrite Hg, Hs.
  by rewrite length_fmap.
Qed.

Lemma write_level_lines conditions geography level criteria :
  (∀ label lookup minnesota collections,
     (label, lookup) ∈ criteria → (minnesota, collections) ∈ conditions →
     is_Some (geography !! key_of minnesota) ∧ is_Some (collections !! lookup)) →
  write_level conditions geography (level, criteria) =
    (level :: level_lines conditions geography criteria, Ok ()).
Proof.
  intros H. unfold write_level, level_lines.
  rewrite (for_emit_all_ok _
    (λ criterion, item ← conditions;
                  panel_lines geography criterion.1 criterion.2 item)); [done|].
  intros [label lookup] Hc. unfold write_criterion. cbn [fst snd].
  apply for_emit_all_ok. intros [minnesota collections] Hp.
  apply write_panel_lines, write_panel_ok. by eapply H.
Qed.

Lemma elem_of_level_lines conditions geography criteria line :
  line ∈ level_lines conditions geography criteria ↔
  ∃ label lookup minnesota collections plane panel straws straw,
    (label, lookup) ∈ criteria ∧ (minnesota, collections) ∈ conditions ∧
    geography !! key_of minnesota = Some (plane, panel) ∧
    collections !! lookup = Some straws ∧ straw ∈ straws ∧
    line = data_line plane panel straw label.
Proof.
  unfold level_lines. rewrite list_elem_of_bind. split.
  - intros ([label lookup] & Hline & Hc).
    apply list_elem_of_bind in Hline as ([minnesota collections] & Hline & Hp).
    unfold panel_lines in Hline. cbn [fst snd] in Hline.
    destruct (geography !! key_of minnesota) as [[plane panel]|] eqn:Hg;
      [|by apply elem_of_nil in Hline].
    destruct (collections !! lookup) as [straws|] eqn:Hs;
      [|by apply elem_of_nil in Hline].
    apply list_elem_of_fmap in Hline as (straw & -> & Hstraw).
    by exists label, lookup, minnesota, collections, plane, panel, straws, straw.
  - intros (label & lookup & minnesota & collections & plane & panel & straws &
            straw & Hc & Hp & Hg & Hs & Hstraw & ->).
    exists (label, lookup). split; [|done].
    apply list_elem_of_bind. exists (minnesota, collections). split; [|done].
    unfold panel_lines. cbn [fst snd]. rewrite Hg, Hs.
    apply list_elem_of_fmap. by exists straw.
Qed.

(** C8 (amended): when every panel of the merged mapping has its coordinates
    in the geographic map and every record holds every source field the
    scheme names, the emitter ends normally and writes, for each level in
    turn, the level name followed by one line
    [{plane}_{panel}_{index}, {label}] per output label, panel and index of
    the panel's list for the label's field; the number of data lines under
    a level is the sum of the lengths of these lists. *)
Theorem table_lines conditions geography scheme :
  covered conditions geography →
  fields_present conditions scheme →
  write_offline_table conditions geography scheme =
    ('(level, criteria) ← scheme;
     level :: level_lines conditions geography criteria, Ok ())
  ∧ (∀ level criteria, (level, criteria) ∈ scheme →
       length (level_lines conditions geography criteria) =
         level_count conditions criteria
       ∧ ∀ line, line ∈ level_lines conditions geography criteria ↔
           ∃ label lookup minnesota collections plane panel straws straw,
             (label, lookup) ∈ criteria ∧
             (minnesota, collections) ∈ conditions ∧
             geography !! key_of minnesota = Some (plane, panel) ∧
             collections !! lookup = Some straws ∧ straw ∈ straws ∧
             line = data_line plane panel straw label).
Proof.
  intros Hcov Hfields.
  assert (∀ level criteria label lookup minnesota collections,
    (level, criteria) ∈ scheme → (label, lookup) ∈ criteria →
    (minnesota, collections) ∈ conditions →
    is_Some (geography !! key_of minnesota) ∧ is_Some (collections !! lookup)) as H.
  { apply lookups_of_precondition. split; [done|]. by intros _. }
  split.
  - unfold write_offline_table. apply for_emit_all_ok.
    intros [level criteria] Hl. apply write_level_lines.
    intros label lookup minnesota collections. by apply (H level).
  - intros level criteria Hl. split.
    + apply level_lines_length.
      intros label lookup minnesota collections. by apply (H level).
    + apply elem_of_level_lines.
Qed.

(** C10: under a scheme that names a source field, the emitter ends
    without an exception only if every record of the merged mapping holds
    every source field the scheme names and every panel has its coordinates
    in the geographic map, and it does end so under this precondition.  A
    panel that the map lacks, or whose record lacks a named field, is never
    skipped: the run ends with a KeyError, the lookup of a panel that the
    map lacks raising the KeyError of the panel and the lookup of a field
    that the record lacks the KeyError of the field, and nothing is written
    for that panel. *)
Theorem table_completes_iff conditions geography scheme lookup0 :
  names_field scheme lookup0 →
  ((write_offline_table conditions geography scheme).2 = Ok () →
     fields_present conditions scheme ∧ covered conditions geography)
  ∧ (fields_present conditions scheme ∧ covered conditions geography →
     (write_offline_table conditions geography scheme).2 = Ok ())
  ∧ (∀ minnesota collections,
       (minnesota, collections) ∈ conditions →
       geography !! key_of minnesota = None
       ∨ (∃ lookup, names_field scheme lookup ∧ collections !! lookup = None) →
       ∃ key, (write_offline_table conditions geography scheme).2 =
                Error (KeyError key))
  ∧ (∀ e, (write_offline_table conditions geography scheme).2 = Error e →
          ∃ key, e = KeyError key)
  ∧ (∀ label lookup minnesota collections,
       geography !! key_of minnesota = None →
       write_panel geography label lookup (minnesota, collections) =
         ([], Error (KeyError (repr_key minnesota))))
  ∧ (∀ label lookup minnesota collections,
       is_Some (geography !! key_of minnesota) → collections !! lookup = None →
       write_panel geography label lookup (minnesota, collections) =
         ([], Error (KeyError (repr_str lookup)))).
Proof.
  intros Hnames.
  assert ((write_offline_table conditions geography scheme).2 = Ok () ↔
          fields_present conditions scheme ∧ covered conditions geography)
    as Hiff.
  { rewrite table_ok_lookups, lookups_of_precondition.
    split; intros [Hf Hc]; (split; [done|]); [|done].
    apply Hc. by exists lookup0. }
  split_and!.
  - apply Hiff.
  - apply Hiff.
  - intros minnesota collections Hin Hlacks.
    destruct (write_offline_table conditions geography scheme) as [out [[]|e]]
      eqn:Hrun; cbn [snd] in *.
    + exfalso. destruct (proj1 Hiff eq_refl) as [Hf Hc].
      destruct Hlacks as [Hg|(lookup & Hl & Hs)].
      * destruct (Hc _ _ Hin) as [coordinates Hsome]. congruence.
      * destruct (Hf _ _ _ Hl Hin) as [straws Hsome]. congruence.
    + destruct (table_error_is_KeyError conditions geography scheme e)
        as [key ->]; [by rewrite Hrun|]. by exists key.
  - apply table_error_is_KeyError.
  - intros label lookup minnesota collections Hg. unfold write_panel.
    by rewrite Hg.
  - intros label lookup minnesota collections [[plane panel] Hg] Hs.
    unfold write_panel. by rewrite Hg, Hs.
Qed.

Import Samples.

Lemma table_lines_witness :
  write_offline_table merged_full geography_2_5 status_levels =
    ([ "TrkStrawStatusLong"; "1_2_3, Absent"; "1_2_7, Absent";
       "TrkStrawStatusShort"; "1_2_0, Disabled" ], Ok ()).
Proof.
  refine (proj1 (table_lines merged_full geography_2_5 status_levels _ _)).
  - intros minnesota collections [[= -> ->]|[]%elem_of_nil]%elem_of_cons.
    by eexists.
  - intros lookup minnesota collections (level & criteria & label & Hl & Hc)
           [[= -> ->]|[]%elem_of_nil]%elem_of_cons.
    unfold status_levels in Hl.
    repeat (apply elem_of_cons in Hl as [[= -> ->]|Hl]);
      [..|by apply elem_of_nil in Hl];
      repeat (apply elem_of_cons in Hc as [[= -> ->]|Hc]);
      try (by apply elem_of_nil in Hc); by eexists.
Defined.

Lemma missing_field_stops_table :
  Reconciler.reconcile midas_sample hardware_sample None =
    list_to_map (keyed merged_2_5)
  ∧ list_to_map (keyed merged_5_2) =
      (list_to_map (keyed merged_2_5) : conditions_map)
  ∧ geography_2_5 !! KStr "MN002" = Some (0, 1)
  ∧ geography_2_5 !! KStr "MN005" = Some (1, 2)
  ∧ level_count merged_2_5 [("Absent", "missing_straws"); ("NoWire", "missing_wires")]
    = 2%nat
  ∧ write_offline_table merged_2_5 geography_2_5 status_levels =
      ([ "TrkStrawStatusLong" ], Error (KeyError "'missing_straws'"))
  ∧ write_offline_table merged_5_2 geography_2_5 status_levels =
      ([ "TrkStrawStatusLong"; "1_2_3, Absent"; "1_2_7, Absent" ],
       Error (KeyError "'missing_straws'")).
Proof.
  split; [apply ReconcilerFacts.reconcile_samples|].
  split_and!; vm_compute; reflexivity.
Qed.

Lemma names_missing_straws : names_field status_levels "missing_straws".
Proof.
  exists "TrkStrawStatusLong",
         [("Absent", "missing_straws"); ("NoWire", "missing_wires")], "Absent".
  split; left.
Qed.

Lemma table_completes_iff_witness :
  names_field status_levels "missing_straws"
  ∧ (fields_present merged_full status_levels
     ∧ covered merged_full geography_2_5)
  ∧ (∃ key, (write_offline_table merged_5_2 geography_2_5 status_levels).2 =
              Error (KeyError key))
  ∧ write_panel geography_2_5 "Absent" "missing_straws"
      (HStr "MN002", Navigator.disabled_record []) =
      ([], Error (KeyError "'missing_straws'"))
  ∧ write_panel ∅ "Absent" "missing_straws"
      (HStr "MN'2", Navigator.disabled_record []) =
      ([], Error (KeyError (String "034" "MN'2" +:+ String "034" EmptyString)))
  ∧ write_panel ∅ "Absent" "missing_straws"
      (HBool true, Navigator.disabled_record []) =
      ([], Error (KeyError "True")).
Proof.
  pose proof (table_completes_iff merged_5_2 geography_2_5 status_levels
                "missing_straws" names_missing_straws)
    as (Honly & _ & Hlacks & _ & Hmap & Hfield).
  clear Honly. split; [exact names_missing_straws|]. split.
  { apply (table_completes_iff merged_full geography_2_5 status_levels
             "missing_straws" names_missing_straws).
    vm_compute. reflexivity. }
  split_and!.
  - apply (Hlacks (HStr "MN002") (Navigator.disabled_record [])).
    + right. left.
    + right. exists "missing_straws". split; [exact names_missing_straws|].
      reflexivity.
  - apply Hfield; [by eexists|reflexivity].
  - exact (proj1 (proj2 (proj2 (proj2 (proj2
      (table_completes_iff [] ∅ status_levels "missing_straws"
         names_missing_straws))))) "Absent" "missing_straws" (HStr "MN'2")
      (Navigator.disabled_record []) eq_refl).
  - exact (proj1 (proj2 (proj2 (proj2 (proj2
      (table_completes_iff [] ∅ status_levels "missing_straws"
         names_missing_straws))))) "Absent" "missing_straws" (HBool true)
      (Navigator.disabled_record []) eq_refl).
Defined.

(** A scheme without an entry looks no panel up, in neither mapping. *)
Lemma empty_scheme_needs_no_map :
  write_offline_table merged_2_5 ∅ [] = ([], Ok ())
  ∧ write_offline_table merged_2_5 ∅ [("TrkStrawStatusLong", [])] =
      ([ "TrkStrawStatusLong" ], Ok ())
  ∧ (∅ : gmap pykey (Z * Z)) !! KStr "MN002" = None.
Proof. split_and!; reflexivity. Qed.

End EmitterFacts.

(** * Further properties *)

(** ** The object extractor, in every case *)

Module ExtractorMore.
Import Extractor ExtractorFacts.

Local Arguments depth : simpl never.

(** The loop from a score of at least one: it stops on the first byte that
    brings the score to zero, or runs to the end of the buffer. *)
Lemma scan_cases rest : ∀ idx score,
  1 ≤ score →
  ∃ m, (m ≤ length rest)%nat
    ∧ scan rest idx score = (idx + m)%nat
    ∧ (∀ k, (k < m)%nat → 1 ≤ score + depth (take k rest))
    ∧ (((0 < m)%nat ∧ score + depth (take m rest) = 0)
       ∨ (m = length rest ∧ 1 ≤ score + depth rest)).
Proof.
  induction rest as [|b rest IH]; intros idx score Hscore.
  - exists 0%nat. split_and!; [done|simpl; lia|intros k Hk; lia|].
    right. change (depth []) with 0. split; [done|lia].
  - rewrite scan_cons. pose proof (delta_range b).
    destruct (decide (score + delta b < 1)) as [Hstop|Hgo].
    + exists 1%nat. split_and!; [simpl; lia|lia| |].
      * intros k Hk. assert (k = 0%nat) as -> by lia.
        rewrite take_0. change (depth []) with 0. lia.
      * left. split; [lia|]. simpl. rewrite take_0, depth_cons.
        change (depth []) with 0. lia.
    + destruct (IH (S idx) (score + delta b) ltac:(lia))
        as (m & Hm & Hscan & Hpos & Hend).
      exists (S m). split_and!; [simpl; lia|rewrite Hscan; lia| |].
      * intros [|k] Hk.
        -- rewrite take_0. change (depth []) with 0. lia.
        -- simpl. rewrite depth_cons. specialize (Hpos k ltac:(lia)). lia.
      * simpl. rewrite !depth_cons.
        destruct Hend as [[Hm0 Hz]|[-> Hz]]; [left|right]; split; lia.
Qed.

(** X1: whatever follows an open brace at offset 16, the extractor returns
    a nonempty prefix of the bytes from offset 16 on, from which the depth
    counter stays positive until its last byte; the prefix either ends on
    the first byte that brings the counter back to zero or, when there is
    none, is everything up to the end of the buffer.  The 16 header bytes
    play no part. *)
Theorem extract_object_cases (header tail : list byte) :
  length header = 16%nat →
  head tail = Some plus →
  ∃ n, (0 < n ≤ length tail)%nat
    ∧ extract_object (header ++ tail) = Ok (take n tail)
    ∧ (∀ k, (0 < k < n)%nat → 1 ≤ depth (take k tail))
    ∧ (depth (take n tail) = 0 ∨ (n = length tail ∧ 1 ≤ depth tail)).
Proof.
  intros Hlen Hhd. destruct tail as [|b rest]; [done|].
  simpl in Hhd. injection Hhd as ->.
  destruct (scan_cases rest 17 1 ltac:(lia)) as (m & Hm & Hscan & Hpos & Hend).
  exists (S m). split_and!; [lia|simpl; lia| | |].
  - unfold extract_object.
    assert (drop start (header ++ plus :: rest) = plus :: rest) as Hdrop
      by (unfold start; rewrite <- Hlen; apply drop_app_length).
    assert ((header ++ plus :: rest) !! start = Some plus) as ->.
    { unfold start. rewrite lookup_app_r by lia.
      by rewrite Hlen, Nat.sub_diag. }
    rewrite decide_False by (intros H; by apply H).
    cbv zeta. f_equal. unfold slice. rewrite Hdrop, scan_cons.
    assert (delta plus = 1) as -> by done.
    rewrite decide_False by lia. change (0 + 1) with 1.
    change (S start) with 17%nat. rewrite Hscan.
    unfold start. by replace (17 + m - 16)%nat with (S m) by lia.
  - intros [|k] Hk; [lia|]. simpl. rewrite depth_cons.
    assert (delta plus = 1) as -> by done. apply Hpos. lia.
  - simpl. rewrite !depth_cons. assert (delta plus = 1) as -> by done.
    destruct Hend as [[_ Hz]|[-> Hz]]; [by left|right]. split; [done|lia].
Qed.

Import Samples.

Lemma extract_object_cases_witness :
  ∃ n, (0 < n ≤ length (balanced_region ++ trailing_bytes))%nat
    ∧ extract_object (header ++ balanced_region ++ trailing_bytes) =
        Ok (take n (balanced_region ++ trailing_bytes))
    ∧ (∀ k, (0 < k < n)%nat →
            1 ≤ depth (take k (balanced_region ++ trailing_bytes)))
    ∧ (depth (take n (balanced_region ++ trailing_bytes)) = 0
       ∨ (n = length (balanced_region ++ trailing_bytes)
          ∧ 1 ≤ depth (balanced_region ++ trailing_bytes))).
Proof.
  apply (extract_object_cases header (balanced_region ++ trailing_bytes));
    reflexivity.
Defined.

End ExtractorMore.

(** ** The configuration navigator: skipped keys, errors and the records *)

Module NavigatorMore.
Import Navigator NavigatorFacts.

Lemma for_each_skip {A S} (body : S → A → result S) s xs x ys :
  (∀ s', body s' x = Ok s') →
  for_each body s (xs ++ x :: ys) = for_each body s (xs ++ ys).
Proof.
  intros Hskip. rewrite !for_each_app.
  destruct (for_each body s xs) as [s'|e]; [|done].
  simpl. by rewrite Hskip.
Qed.

Lemma for_each_all_skip {A S} (body : S → A → result S) s xs :
  Forall (λ x, ∀ s', body s' x = Ok s') xs → for_each body s xs = Ok s.
Proof.
  induction 1 as [|x xs Hx _ IH]; [done|]. simpl. by rewrite Hx.
Qed.

(** X2: the key patterns select and never validate.  An item whose key does
    not match the pattern of its level is passed over whatever its value
    is, so taking it out of the tree changes nothing; a tracker none of
    whose keys matches the station pattern gives the empty mapping. *)
Theorem unmatched_keys_skipped :
  (∀ rv sts1 k v sts2, match_station k = false →
     visit_stations rv (sts1 ++ (k, v) :: sts2) = visit_stations rv (sts1 ++ sts2))
  ∧ (∀ rv pls1 k v pls2, match_plane k = false →
     visit_planes rv (pls1 ++ (k, v) :: pls2) = visit_planes rv (pls1 ++ pls2))
  ∧ (∀ rv pns1 k v pns2, match_panel k = false →
     visit_panels rv (pns1 ++ (k, v) :: pns2) = visit_panels rv (pns1 ++ pns2))
  ∧ (∀ configuration sts,
       descend configuration = Ok (JObj sts) →
       Forall (λ kv, match_station kv.1 = false) sts →
       navigate configuration = Ok ∅).
Proof.
  split_and!.
  - intros rv sts1 k v sts2 Hk. apply for_each_skip. intros s'. by rewrite Hk.
  - intros rv pls1 k v pls2 Hk. apply for_each_skip. intros s'. by rewrite Hk.
  - intros rv pns1 k v pns2 Hk. apply for_each_skip. intros s'. by rewrite Hk.
  - intros configuration sts Hdesc Hall. rewrite (navigate_tracker _ _ Hdesc).
    apply for_each_all_skip. eapply Forall_impl; [exact Hall|].
    intros [k v] Hk s'. simpl in Hk. by rewrite Hk.
Qed.

(** X3: the fixed key path.  A missing key of the path ends the navigator
    with the KeyError of that key, and it is the first missing one; a value
    at the end of the path that is not an object ends it with an
    AttributeError, before any panel is looked at. *)
Theorem path_errors (a b c d : list (string * json)) :
  (assoc "Mu2e" a = None → navigate (JObj a) = Error (KeyError "'Mu2e'"))
  ∧ (assoc "Mu2e" a = Some (JObj b) → assoc "RunConfigurations" b = None →
       navigate (JObj a) = Error (KeyError "'RunConfigurations'"))
  ∧ (assoc "Mu2e" a = Some (JObj b) →
     assoc "RunConfigurations" b = Some (JObj c) →
     assoc "train_station" c = None →
       navigate (JObj a) = Error (KeyError "'train_station'"))
  ∧ (assoc "Mu2e" a = Some (JObj b) →
     assoc "RunConfigurations" b = Some (JObj c) →
     assoc "train_station" c = Some (JObj d) →
     assoc "Tracker" d = None →
       navigate (JObj a) = Error (KeyError "'Tracker'"))
  ∧ (∀ tracker,
     assoc "Mu2e" a = Some (JObj b) →
     assoc "RunConfigurations" b = Some (JObj c) →
     assoc "train_station" c = Some (JObj d) →
     assoc "Tracker" d = Some tracker →
       match tracker with
       | JObj sts => navigate (JObj a) = visit_stations ∅ sts
       | _ => navigate (JObj a) =
                Error (AttributeError ("'" +:+ type_name tracker +:+
                                       "' object has no attribute 'items'"))
       end).
Proof.
  unfold navigate, descend. split_and!.
  - intros Ha. simpl. by rewrite Ha.
  - intros Ha Hb. simpl. rewrite Ha. simpl. by rewrite Hb.
  - intros Ha Hb Hc. simpl. rewrite Ha. simpl. rewrite Hb. simpl.
    by rewrite Hc.
  - intros Ha Hb Hc Hd. simpl. rewrite Ha. simpl. rewrite Hb. simpl.
    rewrite Hc. simpl. by rewrite Hd.
  - intros tracker Ha Hb Hc Hd. simpl. rewrite Ha. simpl. rewrite Hb. simpl.
    rewrite Hc. simpl. rewrite Hd. by destruct tracker.
Qed.

(** X4: the Name of a panel is read outside the [try]: a panel object
    without Name ends the traversal with the bare KeyError of Name, while a
    panel with a new Name and without ch_mask ends it with the exception
    that carries the label and the text of the KeyError of ch_mask. *)
Theorem name_is_read_outside_try sts rv kvs :
  reaches sts rv (JObj kvs) →
  (assoc "Name" kvs = None → visit_stations ∅ sts = Error (KeyError "'Name'"))
  ∧ (∀ name key label,
       assoc "Name" kvs = Some name → label_of name = Ok (key, label) →
       key ∉ dom rv → assoc "ch_mask" kvs = None →
       visit_stations ∅ sts =
         Error (Exception ("exception: " +:+ label +:+ ": 'ch_mask'"))).
Proof.
  intros Hreach. split.
  - intros Hname. eapply reaches_raises; [done|].
    unfold visit_panel. simpl. by rewrite Hname.
  - intros name key label Hname Hlabel Hnew Hmask.
    eapply reaches_raises; [done|].
    unfold visit_panel. simpl. rewrite Hname. simpl. rewrite Hlabel. simpl.
    rewrite decide_False by done. unfold read_mask. simpl. by rewrite Hmask.
Qed.

Lemma name_is_read_outside_try_witness :
  visit_stations ∅ (Samples.one_plane [("Panel_00", JObj [("ch_mask", JArr [])])])
    = Error (KeyError "'Name'")
  ∧ visit_stations ∅ (Samples.one_plane [("Panel_00", JObj [("Name", JStr "MN001")])])
    = Error (Exception "exception: MN001: 'ch_mask'").
Proof.
  split.
  - refine (proj1 (name_is_read_outside_try _ ∅ [("ch_mask", JArr [])] _) eq_refl).
    apply reaches_first.
  - refine (proj2 (name_is_read_outside_try _ ∅ [("Name", JStr "MN001")] _)
              (JStr "MN001") (KStr "MN001") "MN001" eq_refl eq_refl _ eq_refl).
    + apply reaches_first.
    + rewrite dom_empty_L. apply not_elem_of_empty.
Defined.

(** The comprehension of lines 74-75, whatever kind of value the mask is:
    the indices kept are increasing and below the length. *)
Lemma disabled_channels_from_any (enabled : json) n : ∀ i acc d,
  for_each
    (λ acc i, x ← getitem_int enabled i;
              Ok (if truthy x then acc else acc ++ [Z.of_nat i]))
    acc (seq i n) = Ok d →
  ∃ l, d = acc ++ (Z.of_nat <$> l) ∧ StronglySorted lt l ∧
       Forall (λ j, i ≤ j < i + n)%nat l.
Proof.
  induction n as [|n IH]; intros i acc d H.
  - injection H as <-. exists []. rewrite fmap_nil, app_nil_r.
    split_and!; [done|constructor|constructor].
  - cbn [seq for_each] in H.
    destruct (getitem_int enabled i) as [x|] eqn:Hx; [|done]. simpl in H.
    apply IH in H as (l & -> & Hs & Hb).
    assert (Forall (λ j, i ≤ j < i + S n)%nat l) as Hb'
      by (eapply Forall_impl; [exact Hb|]; simpl; intros; lia).
    destruct (truthy x).
    + exists l. done.
    + exists (i :: l). split_and!.
      * by rewrite fmap_cons, <- app_assoc.
      * constructor; [done|]. eapply Forall_impl; [exact Hb|].
        simpl. intros; lia.
      * constructor; [lia|done].
Qed.

Lemma disabled_channels_sound enabled n d :
  disabled_channels enabled n = Ok d →
  StronglySorted Z.lt d ∧ ∀ z, z ∈ d → 0 ≤ z < Z.of_nat n.
Proof.
  intros (l & -> & Hs & Hb)%disabled_channels_from_any. simpl. split.
  - apply StronglySorted_fmap with (R1 := lt); [intros; lia|done].
  - intros z (j & -> & Hj)%list_elem_of_fmap.
    rewrite Forall_forall in Hb. specialize (Hb j Hj). lia.
Qed.

Lemma navigate_records_spec configuration out key rec :
  navigate configuration = Ok out →
  out !! key = Some rec →
  ∃ disabled,
    rec = disabled_record disabled
    ∧ StronglySorted Z.lt disabled
    ∧ ∀ z, z ∈ disabled → 0 ≤ z < 96.
Proof.
  unfold navigate. intros Hnav Hrec.
  apply bind_ok in Hnav as (tracker & _ & Hnav).
  apply bind_ok in Hnav as (sts & _ & Hnav).
  destruct (collects_stations sts _ _ Hnav) as (es & Hpass & _ & _ & ->).
  rewrite (right_id_L ∅ (∪)) in Hrec.
  apply elem_of_list_to_map_2 in Hrec.
  apply list_elem_of_fmap in Hrec as ([k d] & [= -> ->] & Hin).
  apply list_elem_of_lookup in Hin as [i Hi].
  destruct (Forall2_lookup_r _ _ _ _ _ Hpass Hi) as (vpn & _ & Hp).
  destruct Hp as (? & ? & enabled & _ & _ & _ & _ & Hd). simpl in Hd.
  exists d. split; [done|]. by apply disabled_channels_sound in Hd.
Qed.

(** X5: every record of the mapping that the navigator returns has the one
    field readout_disabled, and its value is a strictly increasing list of
    channel numbers from 0 to 95. *)
Theorem navigate_records configuration out key rec :
  navigate configuration = Ok out →
  out !! key = Some rec →
  ∃ disabled,
    rec = disabled_record disabled
    ∧ StronglySorted Z.lt disabled
    ∧ ∀ z, z ∈ disabled → 0 ≤ z < 96.
Proof. apply navigate_records_spec. Qed.

Lemma navigate_configuration_of sts :
  navigate (Samples.configuration_of sts) = visit_stations ∅ sts.
Proof. reflexivity. Qed.

Lemma navigate_one_sound_panel :
  navigate
    (Samples.configuration_of
       (Samples.one_plane
          [("Panel_00", Samples.panel_node "MN001" Samples.mask_3_7)])) =
    Ok {[KStr "MN001" := disabled_record [3; 7]]}.
Proof.
  rewrite navigate_configuration_of.
  unfold Samples.one_plane, visit_stations. cbn [for_each].
  change (match_station "Station_00") with true. cbv iota.
  cbn [items mbind result_mbind result_bind].
  unfold visit_planes. cbn [for_each].
  change (match_plane "Plane_00") with true. cbv iota.
  cbn [items mbind result_mbind result_bind].
  unfold visit_panels. cbn [for_each].
  change (match_panel "Panel_00") with true. cbv iota.
  by rewrite visit_sound_panel.
Qed.

Lemma navigate_records_witness :
  ∃ disabled,
    disabled_record [3; 7] = disabled_record disabled
    ∧ StronglySorted Z.lt disabled
    ∧ ∀ z, z ∈ disabled → 0 ≤ z < 96.
Proof.
  exact (navigate_records _ _ (KStr "MN001") _ navigate_one_sound_panel
           (lookup_singleton_eq _ _)).
Defined.

Lemma string_get_lt s i : (i < String.length s)%nat → is_Some (String.get i s).
Proof.
  revert i. induction s as [|c s IH]; intros i Hi; [simpl in Hi; lia|].
  destruct i as [|i]; simpl; [by eexists|]. apply IH. simpl in Hi. lia.
Qed.

Lemma disabled_channels_string s n : ∀ i acc,
  (i + n ≤ String.length s)%nat →
  for_each
    (λ acc i, x ← getitem_int (JStr s) i;
              Ok (if truthy x then acc else acc ++ [Z.of_nat i]))
    acc (seq i n) = Ok acc.
Proof.
  induction n as [|n IH]; intros i acc Hle; [done|].
  cbn [seq for_each getitem_int].
  destruct (string_get_lt s i ltac:(lia)) as [c ->]. simpl.
  apply IH. lia.
Qed.

(** X6: the mask is used as whatever [json.loads] made of it.  A mask that
    is a string of 96 characters passes the length check and disables no
    channel, as every character is truthy; a mask that is a number, a
    boolean or null has no length, and the panel fails with the exception
    that carries its label and the text of the TypeError. *)
Theorem mask_of_another_type rv vpn name key label :
  getitem vpn "Name" = Ok name → label_of name = Ok (key, label) →
  key ∉ dom rv →
  (∀ s, getitem vpn "ch_mask" = Ok (JStr s) → String.length s = 96%nat →
        visit_panel rv vpn = Ok (<[key := disabled_record []]> rv))
  ∧ (∀ mask, getitem vpn "ch_mask" = Ok mask →
       match mask with
       | JNull | JBool _ | JInt _ =>
           visit_panel rv vpn =
             Error (Exception ("exception: " +:+ label +:+ ": object of type '"
                               +:+ type_name mask +:+ "' has no len()"))
       | _ => True
       end).
Proof.
  intros Hname Hlabel Hnew. split.
  - intros s Hmask Hlen. unfold visit_panel. rewrite Hname. simpl.
    rewrite Hlabel. simpl. rewrite decide_False by done.
    unfold read_mask. rewrite Hmask. simpl. rewrite decide_False by lia.
    rewrite Hlen. unfold disabled_channels.
    by rewrite disabled_channels_string by lia.
  - intros mask Hmask. unfold visit_panel, read_mask.
    destruct mask; try done; rewrite Hname; simpl; rewrite Hlabel; simpl;
      rewrite decide_False by done; by rewrite Hmask.
Qed.

Lemma mask_of_another_type_witness :
  visit_panel ∅ (JObj [("Name", JStr "MN001"); ("ch_mask", JNull)]) =
    Error (Exception "exception: MN001: object of type 'NoneType' has no len()").
Proof.
  refine (proj2 (mask_of_another_type ∅
            (JObj [("Name", JStr "MN001"); ("ch_mask", JNull)])
            (JStr "MN001") (KStr "MN001") "MN001" eq_refl eq_refl _)
            JNull eq_refl).
  rewrite dom_empty_L. apply not_elem_of_empty.
Defined.

End NavigatorMore.

(** ** Panel labels and the rows of the database *)

Module LabelFacts.

Lemma pretty_N_go_length_ge x : ∀ s,
  (String.length s ≤ String.length (pretty_N_go x s))%nat.
Proof.
  induction (N.lt_wf_0 x) as [x _ IH]; intros s.
  assert (x = 0 ∨ 0 < x)%N as [->|Hx] by lia; [by rewrite pretty_N_go_0|].
  rewrite pretty_N_go_step by done.
  etrans; [|by eapply IH, N.div_lt]. simpl. lia.
Qed.

Lemma pretty_N_go_length_3 x s :
  (100 ≤ x)%N → (String.length s + 3 ≤ String.length (pretty_N_go x s))%nat.
Proof.
  intros Hx.
  assert (10 ≤ x `div` 10)%N by (apply N.div_le_lower_bound; lia).
  assert (1 ≤ (x `div` 10) `div` 10)%N by (apply N.div_le_lower_bound; lia).
  rewrite 3!pretty_N_go_step by lia.
  etrans; [|apply pretty_N_go_length_ge]. simpl. lia.
Qed.

Lemma pretty_N_go_length_4 x s :
  (1000 ≤ x)%N → (String.length s + 4 ≤ String.length (pretty_N_go x s))%nat.
Proof.
  intros Hx.
  assert (100 ≤ x `div` 10)%N by (apply N.div_le_lower_bound; lia).
  rewrite pretty_N_go_step by lia.
  etrans; [|apply pretty_N_go_length_3; lia]. simpl. lia.
Qed.

Lemma pretty_N_length_3 (x : N) :
  (100 ≤ x)%N → (3 ≤ String.length (pretty x))%nat.
Proof.
  intros Hx. unfold pretty, pretty_N. rewrite decide_False by lia.
  pose proof (pretty_N_go_length_3 x "" Hx). simpl in *. lia.
Qed.

Lemma pretty_N_length_4 (x : N) :
  (1000 ≤ x)%N → (4 ≤ String.length (pretty x))%nat.
Proof.
  intros Hx. unfold pretty, pretty_N. rewrite decide_False by lia.
  pose proof (pretty_N_go_length_4 x "" Hx). simpl in *. lia.
Qed.

Lemma string_app_length (s1 s2 : string) :
  String.length (s1 +:+ s2) = (String.length s1 + String.length s2)%nat.
Proof.
  induction s1 as [|c s1 IH]; [done|].
  unfold String.app in *. simpl. by rewrite IH.
Qed.

(** From 1000 on, and from -100 down, [%03d] pads nothing. *)
Lemma fmt_03d_large n :
  n ≤ -100 ∨ 1000 ≤ n →
  fmt_03d n = pretty n ∧ (4 ≤ String.length (fmt_03d n))%nat.
Proof.
  intros Hn. unfold fmt_03d. destruct (decide (n < 0)) as [Hneg|Hpos].
  - destruct n as [|p|p]; [lia|lia|]. change (- Z.neg p) with (Z.pos p).
    change (pretty (Z.pos p)) with (pretty (N.pos p)).
    assert (3 ≤ String.length (pretty (N.pos p)))%nat as Hlen
      by (apply pretty_N_length_3; lia).
    replace (2 - String.length (pretty (N.pos p)))%nat with 0%nat by lia.
    change (zeros 0 +:+ ?s) with s. split; [done|].
    rewrite string_app_length. simpl. lia.
  - destruct n as [|p|p]; [lia| |lia].
    change (pretty (Z.pos p)) with (pretty (N.pos p)).
    assert (4 ≤ String.length (pretty (N.pos p)))%nat as Hlen
      by (apply pretty_N_length_4; lia).
    replace (3 - String.length (pretty (N.pos p)))%nat with 0%nat by lia.
    change (zeros 0 +:+ ?s) with s. done.
Qed.

(** In between, the texts have three characters and differ two by two. *)
Lemma fmt_03d_small_length :
  Forall (λ n, String.length (fmt_03d n) = 3%nat) (seqZ (-99) 1099).
Proof. apply (bool_decide_unpack _). vm_compute. exact I. Qed.

Lemma fmt_03d_small_NoDup : NoDup (fmt_03d <$> seqZ (-99) 1099).
Proof. apply (bool_decide_unpack _). vm_compute. exact I. Qed.

Lemma NoDup_fmap_inj_on {A B} (f : A → B) (l : list A) x y :
  NoDup (f <$> l) → x ∈ l → y ∈ l → f x = f y → x = y.
Proof.
  induction l as [|a l IH]; intros Hnd Hx Hy Hxy; [by apply elem_of_nil in Hx|].
  rewrite fmap_cons in Hnd. apply NoDup_cons in Hnd as [Ha Hnd].
  apply elem_of_cons in Hx as [->|Hx]; apply elem_of_cons in Hy as [->|Hy].
  - done.
  - destruct Ha. rewrite Hxy. by apply list_elem_of_fmap_2.
  - destruct Ha. rewrite <- Hxy. by apply list_elem_of_fmap_2.
  - by apply IH.
Qed.

Lemma fmt_03d_inj n m : fmt_03d n = fmt_03d m → n = m.
Proof.
  intros H.
  assert (∀ k, -99 ≤ k ≤ 999 → k ∈ seqZ (-99) 1099) as Hzone
    by (intros k Hk; apply elem_of_seqZ; lia).
  assert (∀ k, -99 ≤ k ≤ 999 → String.length (fmt_03d k) = 3%nat) as Hshort.
  { intros k Hk. by apply (proj1 (Forall_forall _ _) fmt_03d_small_length),
      Hzone. }
  destruct (decide (-99 ≤ n ≤ 999)) as [Hn|Hn],
           (decide (-99 ≤ m ≤ 999)) as [Hm|Hm].
  - eapply (NoDup_fmap_inj_on fmt_03d); eauto using fmt_03d_small_NoDup.
  - destruct (fmt_03d_large m ltac:(lia)) as [_ Hlen].
    rewrite <- H, (Hshort n Hn) in Hlen. lia.
  - destruct (fmt_03d_large n ltac:(lia)) as [_ Hlen].
    rewrite H, (Hshort m Hm) in Hlen. lia.
  - destruct (fmt_03d_large n ltac:(lia)) as [Hpn _].
    destruct (fmt_03d_large m ltac:(lia)) as [Hpm _].
    rewrite Hpn, Hpm in H. by apply (inj pretty).
Qed.

Lemma panel_label_inj n m : panel_label n = panel_label m → n = m.
Proof.
  unfold panel_label. intros H.
  apply (inj (String.app "MN")) in H. by apply fmt_03d_inj.
Qed.

Lemma panel_key_inj n m : KStr (panel_label n) = KStr (panel_label m) → n = m.
Proof. intros H. apply panel_label_inj. congruence. Qed.

(** X7: the label ['MN%03d' % n] determines the panel id [n]: two panel ids
    have the same label only if they are equal, whatever their sign and
    size. *)
Theorem panel_label_determines_id (n m : Z) :
  panel_label n = panel_label m ↔ n = m.
Proof. split; [apply panel_label_inj|by intros ->]. Qed.

Import Fetcher Reconciler ReconcilerFacts.

Lemma collect_rows_snoc rows panel_id missing_straws missing_wires :
  collect_rows (rows ++ [(panel_id, missing_straws, missing_wires)]) =
    <[KStr (panel_label panel_id) :=
        Samples.hardware_record missing_straws missing_wires]>
      (collect_rows rows).
Proof. unfold collect_rows. by rewrite foldl_app. Qed.

Lemma collect_rows_spec (rows : list row) (n : Z) :
  collect_rows rows !! KStr (panel_label n) =
    (λ r : row, Samples.hardware_record r.1.2 r.2)
      <$> last (filter (λ r : row, r.1.1 = n) rows)
  ∧ (∀ key rec, collect_rows rows !! key = Some rec →
       dom rec = ({["missing_straws"; "missing_wires"]} : gset string)
       ∧ ∃ id s w, (id, s, w) ∈ rows ∧ key = KStr (panel_label id)).
Proof.
  induction rows as [|[[id s] w] rows [IH1 IH2]] using rev_ind.
  - split; [done|]. intros key rec H.
    change (collect_rows []) with (∅ : conditions_map) in H.
    by rewrite lookup_empty in H.
  - rewrite collect_rows_snoc. split.
    + rewrite filter_app, filter_cons, filter_nil. cbn [fst snd].
      destruct (decide (id = n)) as [->|Hne].
      * rewrite lookup_insert_eq, last_snoc. done.
      * rewrite lookup_insert_ne, app_nil_r; [done|].
        by intros Heq%panel_key_inj.
    + intros key rec Hkey.
      destruct (decide (key = KStr (panel_label id))) as [->|Hne].
      * rewrite lookup_insert_eq in Hkey. injection Hkey as <-. split.
        -- unfold Samples.hardware_record.
           rewrite !dom_insert_L, dom_empty_L. set_solver.
        -- exists id, s, w. split; [|done]. apply elem_of_app. right. left.
      * rewrite lookup_insert_ne in Hkey by done.
        destruct (IH2 _ _ Hkey) as (Hdom & id' & s' & w' & Hin & ->).
        split; [done|]. exists id', s', w'. split; [|done].
        apply elem_of_app. by left.
Qed.

(** X8: the mapping built from the rows of the cursor has, under the label
    of a panel id, the two lists of the last row with that id, earlier rows
    with the same id being overwritten, and nothing under the label of an
    id that no row has; every record has exactly the fields missing_straws
    and missing_wires, and every key is the label of the id of a row. *)
Theorem collect_rows_lookup (rows : list row) (n : Z) :
  collect_rows rows !! KStr (panel_label n) =
    (λ r : row, Samples.hardware_record r.1.2 r.2)
      <$> last (filter (λ r : row, r.1.1 = n) rows)
  ∧ (∀ key rec, collect_rows rows !! key = Some rec →
       dom rec = ({["missing_straws"; "missing_wires"]} : gset string)
       ∧ ∃ id s w, (id, s, w) ∈ rows ∧ key = KStr (panel_label id)).
Proof. apply collect_rows_spec. Qed.

Lemma elem_of_dom_collect_rows rows n :
  KStr (panel_label n) ∈ dom (collect_rows rows) ↔ ∃ s w, (n, s, w) ∈ rows.
Proof.
  rewrite elem_of_dom. split.
  - intros [rec Hrec].
    destruct (proj2 (collect_rows_spec rows n) _ _ Hrec)
      as (_ & id & s & w & Hin & Heq).
    apply panel_key_inj in Heq as ->. eauto.
  - intros (s & w & Hin).
    rewrite (proj1 (collect_rows_spec rows n)).
    assert ((n, s, w) ∈ filter (λ r : row, r.1.1 = n) rows) as Hf
      by (by apply list_elem_of_filter).
    destruct (filter _ rows) as [|r l] using rev_ind;
      [by apply elem_of_nil in Hf|].
    rewrite last_snoc. by eexists.
Qed.

Lemma elem_of_default_allowed_label n :
  KStr (panel_label n) ∈ default_allowed ↔ 1 ≤ n ≤ 999.
Proof.
  rewrite elem_of_default_allowed. split.
  - intros (i & Hi & Heq). by apply panel_key_inj in Heq as ->.
  - intros Hn. by exists n.
Qed.

(** X9: with no panel filter, the key of a panel id is in the reconciled
    mapping exactly when the id is between 1 and 999 and the navigator has
    the label or some row of the database has the id: rows whose panel id
    is 0, negative or above 999 are dropped. *)
Theorem unfiltered_rows_kept (midas : conditions_map) (rows : list row) (n : Z) :
  KStr (panel_label n) ∈ dom (reconcile midas (collect_rows rows) None) ↔
  1 ≤ n ≤ 999 ∧
  (KStr (panel_label n) ∈ dom midas ∨ ∃ s w, (n, s, w) ∈ rows).
Proof.
  rewrite dom_reconcile, elem_of_intersection, elem_of_union.
  change (allowed_set None) with default_allowed.
  rewrite elem_of_default_allowed_label, elem_of_dom_collect_rows. tauto.
Qed.

End LabelFacts.

(** ** The condition reconciler as an operation on mappings *)

Module ReconcilerMore.
Import Reconciler ReconcilerFacts.

Lemma reconcile_as_filter midas hardware allowed :
  reconcile midas hardware allowed =
    filter (λ kv : pykey * record, kv.1 ∈ allowed_set allowed)
           (union_with (λ m h, Some (update m h)) midas hardware).
Proof.
  apply map_eq. intros k.
  rewrite lookup_reconcile, map_lookup_filter, lookup_union_with.
  unfold merged_record.
  destruct (decide (k ∈ _)) as [Hin|Hout].
  - apply elem_of_intersection in Hin as [Hsrc Hal].
    apply elem_of_union in Hsrc. rewrite !elem_of_dom in Hsrc.
    destruct (midas !! k) as [m|], (hardware !! k) as [h|]; simpl.
    + rewrite option_guard_True by done. by rewrite update_empty_l.
    + rewrite option_guard_True by done. by rewrite update_empty_l.
    + rewrite option_guard_True by done. by rewrite update_empty_l.
    + destruct Hsrc as [[? ?]|[? ?]]; done.
  - rewrite elem_of_intersection, elem_of_union, !elem_of_dom in Hout.
    destruct (midas !! k) as [m|] eqn:Hm, (hardware !! k) as [h|] eqn:Hh;
      simpl; try done;
      (rewrite option_guard_False; [done|]); intros Hal; apply Hout;
      (split; [|done]); eauto.
Qed.

(** X10: the reconciler is the union of the two mappings in which a key of
    both gets the navigator's record updated with the fetcher's, restricted
    to the keys of the allow-list.  An empty allow-list gives the empty
    mapping, which is not the same as giving none; a larger allow-list
    gives a larger mapping with the same records; and with one source
    empty the other source is filtered unchanged. *)
Theorem reconcile_closed_form (midas hardware : conditions_map)
    (allowed : option (list pykey)) :
  reconcile midas hardware allowed =
    filter (λ kv : pykey * record, kv.1 ∈ allowed_set allowed)
           (union_with (λ m h, Some (update m h)) midas hardware)
  ∧ reconcile midas hardware (Some []) = ∅
  ∧ (∀ allowed', allowed_set allowed ⊆ allowed_set allowed' →
       reconcile midas hardware allowed ⊆ reconcile midas hardware allowed')
  ∧ reconcile midas ∅ allowed =
      filter (λ kv : pykey * record, kv.1 ∈ allowed_set allowed) midas
  ∧ reconcile ∅ hardware allowed =
      filter (λ kv : pykey * record, kv.1 ∈ allowed_set allowed) hardware.
Proof.
  split_and!.
  - apply reconcile_as_filter.
  - apply map_eq. intros k. rewrite lookup_reconcile, lookup_empty.
    destruct (decide (k ∈ _)) as [Hin|]; [|done].
    apply elem_of_intersection in Hin as [_ Hin]. simpl in Hin.
    by apply elem_of_empty in Hin.
  - intros allowed' Hsub. apply map_subseteq_spec. intros k rec.
    rewrite !lookup_reconcile.
    destruct (decide (k ∈ _)) as [Hin|]; [|done]. intros [= <-].
    rewrite decide_True; [done|].
    apply elem_of_intersection in Hin as [Hsrc Hal].
    apply elem_of_intersection. split; [done|]. by apply Hsub.
  - rewrite reconcile_as_filter. f_equal. apply map_eq. intros k.
    rewrite lookup_union_with, lookup_empty. by destruct (midas !! k).
  - rewrite reconcile_as_filter. f_equal. apply map_eq. intros k.
    rewrite lookup_union_with, lookup_empty. by destruct (hardware !! k).
Qed.

End ReconcilerMore.

(** ** The table emitter: empty input, composition and failing runs *)

Module EmitterMore.
Import Emitter EmitterFacts.

Lemma for_emit_app {A} (body : A → emitted) xs ys :
  for_emit body (xs ++ ys) =
    match for_emit body xs with
    | (out1, Ok _) => let '(out2, r) := for_emit body ys in (out1 ++ out2, r)
    | (out1, Error e) => (out1, Error e)
    end.
Proof.
  induction xs as [|x xs IH].
  - simpl. by destruct (for_emit body ys).
  - cbn [app for_emit]. destruct (body x) as [out [[]|e]]; [|done].
    rewrite IH. destruct (for_emit body xs) as [out1 [[]|e]]; [|done].
    destruct (for_emit body ys) as [out2 r]. by rewrite app_assoc.
Qed.

(** X11: with no panel in the merged mapping the emitter writes the level
    names of the scheme, one per line and in order, and ends normally,
    whatever the geographic map holds. *)
Theorem table_of_no_panel geography (scheme : list (string * list (string * string))) :
  write_offline_table [] geography scheme = (scheme.*1, Ok ()).
Proof.
  unfold write_offline_table.
  rewrite (for_emit_all_ok _ (λ entry, [entry.1])).
  - reflexivity.
  - intros [level criteria] _. unfold write_level.
    rewrite (for_emit_all_ok _ (λ _, [])).
    + f_equal. f_equal. by induction criteria.
    + by intros [label lookup] _.
Qed.

(** X12: the levels of a scheme are written one after the other and
    independently: the run for two schemes put end to end writes the lines
    of the first, then those of the second, and when the first fails the
    second writes nothing and the exception is that of the first. *)
Theorem table_of_two_schemes conditions geography
    (scheme1 scheme2 : list (string * list (string * string))) :
  write_offline_table conditions geography (scheme1 ++ scheme2) =
    match write_offline_table conditions geography scheme1 with
    | (out1, Ok _) =>
        let '(out2, r) := write_offline_table conditions geography scheme2 in
        (out1 ++ out2, r)
    | (out1, Error e) => (out1, Error e)
    end.
Proof. apply for_emit_app. Qed.

(** What a loop has written is a prefix of what its turns have to write,
    and all of it when the loop ends normally. *)
Local Abbreviation writes_within body full x :=
  ((body x).1 `prefix_of` full x ∧ ((body x).2 = Ok () → (body x).1 = full x)).

Lemma for_emit_within {A} (body : A → emitted) (full : A → list string) xs :
  (∀ x, writes_within body full x) →
  (for_emit body xs).1 `prefix_of` (x ← xs; full x)
  ∧ ((for_emit body xs).2 = Ok () → (for_emit body xs).1 = x ← xs; full x).
Proof.
  intros Hbody. induction xs as [|x xs [IHp IHe]]; [done|].
  destruct (Hbody x) as [Hp He]. cbn [for_emit]. rewrite bind_cons.
  destruct (body x) as [out [[]|e]]; cbn [fst snd] in *.
  - rewrite (He eq_refl).
    destruct (for_emit body xs) as [out' r]. cbn [fst snd] in *. split.
    + by apply prefix_app.
    + intros Hr. by rewrite (IHe Hr).
  - split; [|done]. by apply prefix_app_r.
Qed.

Lemma write_panel_within geography label lookup item :
  writes_within (write_panel geography label lookup)
                (panel_lines geography label lookup) item.
Proof.
  destruct item as [minnesota collections].
  unfold write_panel, panel_lines. cbn [fst snd].
  destruct (geography !! key_of minnesota) as [[plane panel]|];
    [destruct (collections !! lookup)|]; cbn [fst snd]; split; try done;
    apply prefix_nil.
Qed.

Lemma write_level_within conditions geography entry :
  writes_within (write_level conditions geography)
    (λ entry, entry.1 :: level_lines conditions geography entry.2) entry.
Proof.
  destruct entry as [level criteria]. unfold write_level.
  destruct (for_emit_within (write_criterion conditions geography)
    (λ criterion, item ← conditions;
                  panel_lines geography criterion.1 criterion.2 item) criteria)
    as [Hp He].
  { intros [label lookup]. unfold write_criterion.
    apply for_emit_within. intros item. apply write_panel_within. }
  destruct (for_emit _ criteria) as [out r]. cbn [fst snd] in *. split.
  - by apply prefix_cons.
  - intros Hr. unfold level_lines. by rewrite (He Hr).
Qed.

Lemma for_emit_error_written {A} (body : A → emitted) xs e :
  (∀ x e', (body x).2 = Error e' → (body x).1 ≠ []) →
  (for_emit body xs).2 = Error e → (for_emit body xs).1 ≠ [].
Proof.
  intros Hbody. induction xs as [|x xs IH]; [done|].
  cbn [for_emit]. specialize (Hbody x).
  destruct (body x) as [out [[]|e']]; cbn [fst snd] in *.
  - destruct (for_emit body xs) as [out' r]. cbn [fst snd] in *.
    intros Hr Happ. apply app_eq_nil in Happ as [_ ->]. by apply IH.
  - intros _. by eapply Hbody.
Qed.

(** A loop that raises: the turns before the failing one ended normally,
    and what is written is what they wrote, then what the failing turn
    wrote before it raised. *)
Lemma for_emit_fails {A} (body : A → emitted) xs out e :
  for_emit body xs = (out, Error e) →
  ∃ xs1 x xs2 out1 outx,
    xs = xs1 ++ x :: xs2 ∧ for_emit body xs1 = (out1, Ok ()) ∧
    body x = (outx, Error e) ∧ out = out1 ++ outx.
Proof.
  revert out. induction xs as [|x xs IH]; intros out; [done|].
  cbn [for_emit]. destruct (body x) as [outx [[]|e']] eqn:Hx.
  - destruct (for_emit body xs) as [out' r] eqn:Hxs. intros [= <- ->].
    destruct (IH _ eq_refl) as (xs1 & y & xs2 & out1 & outy & -> & H1 & Hy & ->).
    exists (x :: xs1), y, xs2, (outx ++ out1), outy.
    split_and!; [done| |done|by rewrite app_assoc].
    cbn [for_emit]. by rewrite Hx, H1.
  - intros [= <- <-]. by exists [], x, xs, [], outx.
Qed.

Lemma for_emit_ok_written {A} (body : A → emitted) (full : A → list string)
    xs out :
  (∀ x, writes_within body full x) →
  for_emit body xs = (out, Ok ()) → out = x ← xs; full x.
Proof.
  intros Hbody Hrun.
  destruct (for_emit_within body full xs Hbody) as [_ He].
  rewrite Hrun in He. by apply He.
Qed.

Lemma write_criterion_within conditions geography criterion :
  writes_within (write_criterion conditions geography)
    (λ criterion, item ← conditions;
                  panel_lines geography criterion.1 criterion.2 item) criterion.
Proof.
  destruct criterion as [label lookup]. unfold write_criterion.
  apply for_emit_within. intros item. apply write_panel_within.
Qed.

Lemma bind_level_lines conditions geography
    (scheme : list (string * list (string * string))) :
  (entry ← scheme; entry.1 :: level_lines conditions geography entry.2) =
  '(level, criteria) ← scheme; level :: level_lines conditions geography criteria.
Proof.
  induction scheme as [|[level criteria] scheme IH]; [done|].
  by rewrite !bind_cons, IH.
Qed.

(** X13: a run that fails has already written something, and what it has
    written stays: the lines are the beginning of the table, up to the
    lookup that failed.  The levels before the failing one are written in
    full, then the header of the failing level, the lines of its entries
    before the failing one and, under the failing entry, the lines of the
    panels before the one whose lookup failed; this panel itself
    contributes no line. *)
Theorem failing_run_keeps_prefix conditions geography scheme e :
  (write_offline_table conditions geography scheme).2 = Error e →
  (write_offline_table conditions geography scheme).1 ≠ []
  ∧ (write_offline_table conditions geography scheme).1 `prefix_of`
      ('(level, criteria) ← scheme;
       level :: level_lines conditions geography criteria)
  ∧ ∃ scheme1 level criteria1 label lookup criteria2 scheme2 items1 item items2,
      scheme = scheme1 ++
               (level, criteria1 ++ (label, lookup) :: criteria2) :: scheme2
      ∧ conditions = items1 ++ item :: items2
      ∧ (write_offline_table conditions geography scheme1).2 = Ok ()
      ∧ (for_emit (write_criterion conditions geography) criteria1).2 = Ok ()
      ∧ (for_emit (write_panel geography label lookup) items1).2 = Ok ()
      ∧ write_panel geography label lookup item = ([], Error e)
      ∧ (write_offline_table conditions geography scheme).1 =
          ('(level, criteria) ← scheme1;
           level :: level_lines conditions geography criteria)
          ++ level :: level_lines conditions geography criteria1
          ++ (earlier ← items1; panel_lines geography label lookup earlier).
Proof.
  intros He. split_and!.
  - eapply for_emit_error_written; [|exact He].
    intros [level criteria] e' _. unfold write_level.
    by destruct (for_emit _ criteria).
  - unfold write_offline_table.
    destruct (for_emit_within (write_level conditions geography)
      (λ entry, entry.1 :: level_lines conditions geography entry.2) scheme)
      as [Hp _]; [apply write_level_within|].
    by rewrite <- bind_level_lines.
  - unfold write_offline_table in *.
    destruct (for_emit (write_level conditions geography) scheme)
      as [out r] eqn:Hrun. cbn [fst snd] in *. subst r.
    apply for_emit_fails in Hrun
      as (scheme1 & [level criteria] & scheme2 & out1 & outl & -> & H1 & Hl & ->).
    unfold write_level in Hl.
    destruct (for_emit (write_criterion conditions geography) criteria)
      as [outc r] eqn:Hc. injection Hl as <- ->.
    apply for_emit_fails in Hc
      as (criteria1 & [label lookup] & criteria2 & out2 & outp & -> & H2 & Hp & ->).
    unfold write_criterion in Hp.
    apply for_emit_fails in Hp
      as (items1 & item & items2 & out3 & outi & Hitems & H3 & Hi & ->).
    assert (outi = []) as ->.
    { destruct item as [minnesota collections]. unfold write_panel in Hi.
      destruct (geography !! key_of minnesota) as [[plane panel]|];
        [destruct (collections !! lookup)|]; by injection Hi as <-. }
    exists scheme1, level, criteria1, label, lookup, criteria2, scheme2,
           items1, item, items2.
    split_and!; [done|done|by rewrite H1|by rewrite H2|by rewrite H3|done|].
    rewrite (for_emit_ok_written _ _ _ _
               (write_level_within conditions geography) H1).
    rewrite (for_emit_ok_written _ _ _ _
               (write_criterion_within conditions geography) H2).
    rewrite (for_emit_ok_written _ _ _ _
               (write_panel_within geography label lookup) H3).
    rewrite bind_level_lines, app_nil_r. reflexivity.
Qed.

Lemma failing_run_keeps_prefix_witness :
  (write_offline_table Samples.merged_5_2 Samples.geography_2_5 status_levels).1
    ≠ []
  ∧ (write_offline_table Samples.merged_5_2 Samples.geography_2_5
       status_levels).1 `prefix_of`
      ('(level, criteria) ← status_levels;
       level :: level_lines Samples.merged_5_2 Samples.geography_2_5 criteria)
  ∧ ∃ scheme1 level criteria1 label lookup criteria2 scheme2 items1 item items2,
      status_levels =
        scheme1 ++ (level, criteria1 ++ (label, lookup) :: criteria2) :: scheme2
      ∧ Samples.merged_5_2 = items1 ++ item :: items2
      ∧ (write_offline_table Samples.merged_5_2 Samples.geography_2_5
           scheme1).2 = Ok ()
      ∧ (for_emit (write_criterion Samples.merged_5_2 Samples.geography_2_5)
           criteria1).2 = Ok ()
      ∧ (for_emit (write_panel Samples.geography_2_5 label lookup) items1).2
          = Ok ()
      ∧ write_panel Samples.geography_2_5 label lookup item =
          ([], Error (KeyError "'missing_straws'"))
      ∧ (write_offline_table Samples.merged_5_2 Samples.geography_2_5
           status_levels).1 =
          ('(level, criteria) ← scheme1;
           level :: level_lines Samples.merged_5_2 Samples.geography_2_5
                      criteria)
          ++ level :: level_lines Samples.merged_5_2 Samples.geography_2_5
                        criteria1
          ++ (earlier ← items1;
              panel_lines Samples.geography_2_5 label lookup earlier).
Proof.
  apply (failing_run_keeps_prefix Samples.merged_5_2 Samples.geography_2_5
           status_levels (KeyError "'missing_straws'")).
  vm_compute. reflexivity.
Defined.

(** The lines of the run above: the header and the two lines of the panel
    that comes first. *)
Lemma failing_run_lines :
  write_offline_table Samples.merged_5_2 Samples.geography_2_5 status_levels =
    ([ "TrkStrawStatusLong"; "1_2_3, Absent"; "1_2_7, Absent" ],
     Error (KeyError "'missing_straws'")).
Proof. vm_compute. reflexivity. Qed.


(** *** From the two sources to the table *)

Import Reconciler ReconcilerFacts.

Lemma merged_field_sources (midas hardware : conditions_map) key m h :
  (∀ rec, midas !! key = Some rec → ∃ d, rec = Navigator.disabled_record d) →
  (∀ rec, hardware !! key = Some rec →
     dom rec = ({["missing_straws"; "missing_wires"]} : gset string)) →
  midas !! key = m → hardware !! key = h →
  (is_Some (merged_record midas hardware key !! "readout_disabled")
     ↔ is_Some m)
  ∧ (is_Some (merged_record midas hardware key !! "missing_straws")
     ↔ is_Some h)
  ∧ (is_Some (merged_record midas hardware key !! "missing_wires")
     ↔ is_Some h).
Proof.
  intros Hm Hh Em Eh. unfold merged_record. rewrite Em, Eh.
  assert (∀ (rec : record) (field : string),
    dom rec = ({["missing_straws"; "missing_wires"]} : gset string) →
    is_Some (rec !! field) ↔ field = "missing_straws" ∨ field = "missing_wires")
    as Hfields.
  { intros rec field Hdom. rewrite <- elem_of_dom, Hdom.
    rewrite elem_of_union, !elem_of_singleton. tauto. }
  assert (∀ (d : list Z) (field : string),
    is_Some (Navigator.disabled_record d !! field) ↔
    field = "readout_disabled") as Hdis.
  { intros d field. unfold Navigator.disabled_record.
    rewrite <- elem_of_dom, dom_singleton_L, elem_of_singleton. tauto. }
  destruct m as [rm|], h as [rh|]; rewrite ?update_empty_l, ?update_empty_r.
  - destruct (Hm _ Em) as [d ->]. pose proof (Hh _ Eh) as Hdom.
    assert (∀ field : string,
      is_Some (update (Navigator.disabled_record d) rh !! field)
      ↔ is_Some (rh !! field) ∨ is_Some (Navigator.disabled_record d !! field))
      as Hup.
    { intros field. rewrite lookup_update.
      destruct (rh !! field); [split; eauto|].
      split; [by right|]. by intros [[? ?]|?]. }
    rewrite !Hup, !(Hfields _ _ Hdom), !Hdis.
    split_and!; split; eauto; intros _; by eexists.
  - destruct (Hm _ Em) as [d ->]. rewrite !Hdis.
    split_and!; split; try done; try (by intros [? ?]); intros _; by eexists.
  - pose proof (Hh _ Eh) as Hdom. rewrite !(Hfields _ _ Hdom).
    split_and!; split; eauto; try (by intros [? ?]); try (by intros [?|?]).
  - rewrite !lookup_empty.
    split_and!; split; by intros [? ?].
Qed.

(** X14: the table of a run.  For the mapping that the navigator returns,
    the rows of the database and any allow-list, the table of their merge
    under the scheme of [main] is written to the end, in whatever order the
    panels come, exactly when every panel of the merge is known to the
    navigator, to the database and to the geographic map; a panel that one
    of the three lacks ends the run with a KeyError. *)
Theorem table_needs_both_sources configuration midas (rows : list Fetcher.row)
    allowed items geography :
  Navigator.navigate configuration = Ok midas →
  keyed items ≡ₚ
    map_to_list (reconcile midas (Fetcher.collect_rows rows) allowed) →
  ((write_offline_table items geography status_levels).2 = Ok () ↔
     ∀ key, key ∈ dom (reconcile midas (Fetcher.collect_rows rows) allowed) →
       key ∈ dom midas ∧ key ∈ dom (Fetcher.collect_rows rows) ∧
       is_Some (geography !! key))
  ∧ (∀ e, (write_offline_table items geography status_levels).2 = Error e →
          ∃ key, e = KeyError key).
Proof.
  intros Hnav Hperm. split; [|apply table_error_is_KeyError].
  set (hardware := Fetcher.collect_rows rows) in *.
  assert (∀ key rec, (key, rec) ∈ keyed items ↔
    key ∈ dom (reconcile midas hardware allowed)
    ∧ rec = merged_record midas hardware key) as Hkeyed.
  { intros key rec. rewrite Hperm, elem_of_map_to_list, lookup_reconcile.
    rewrite dom_reconcile. destruct (decide (key ∈ _)); [|by split; [|intros []]].
    split; [by intros [= <-]|by intros [_ ->]]. }
  assert (∀ minnesota collections, (minnesota, collections) ∈ items →
    key_of minnesota ∈ dom (reconcile midas hardware allowed)
    ∧ collections = merged_record midas hardware (key_of minnesota)) as Hitems.
  { intros minnesota collections Hin. apply Hkeyed. unfold keyed.
    apply list_elem_of_fmap. by exists (minnesota, collections). }
  assert (∀ key, key ∈ dom (reconcile midas hardware allowed) →
    ∃ minnesota, key_of minnesota = key
      ∧ (minnesota, merged_record midas hardware key) ∈ items) as Hkeys.
  { intros key Hkey.
    assert ((key, merged_record midas hardware key) ∈ keyed items) as Hin
      by (by apply Hkeyed).
    unfold keyed in Hin.
    apply list_elem_of_fmap in Hin as ([minnesota collections] & [= -> ->] & Hin).
    by exists minnesota. }
  assert (∀ key,
    (is_Some (merged_record midas hardware key !! "readout_disabled")
       ↔ key ∈ dom midas)
    ∧ (is_Some (merged_record midas hardware key !! "missing_straws")
       ↔ key ∈ dom hardware)
    ∧ (is_Some (merged_record midas hardware key !! "missing_wires")
       ↔ key ∈ dom hardware)) as Hfields.
  { intros key. rewrite !elem_of_dom.
    apply (merged_field_sources midas hardware key); [| |done|done].
    - intros rec Hrec.
      destruct (NavigatorMore.navigate_records_spec _ _ _ _ Hnav Hrec)
        as (d & -> & _). by exists d.
    - intros rec Hrec.
      by destruct (proj2 (LabelFacts.collect_rows_spec rows 0) _ _ Hrec). }
  rewrite table_ok_lookups. split.
  - intros H key Hkey.
    destruct (Hkeys key Hkey) as (minnesota & <- & Hin).
    destruct (H "TrkStrawStatusLong"
      [("Absent", "missing_straws"); ("NoWire", "missing_wires")]
      "Absent" "missing_straws" _ _ ltac:(left) ltac:(left) Hin) as [Hg Hs].
    destruct (H "TrkStrawStatusShort" [("Disabled", "readout_disabled")]
      "Disabled" "readout_disabled" _ _ ltac:(right; left) ltac:(left) Hin)
      as [_ Hd].
    destruct (Hfields (key_of minnesota)) as (Fd & Fs & _).
    split_and!; [by apply Fd|by apply Fs|done].
  - intros H level criteria label lookup minnesota collections Hl Hc Hin.
    apply Hitems in Hin as [Hkey ->].
    destruct (H _ Hkey) as (Hm & Hh & Hg). split; [done|].
    destruct (Hfields (key_of minnesota)) as (Fd & Fs & Fw).
    unfold status_levels in Hl.
    repeat (apply elem_of_cons in Hl as [[= -> ->]|Hl]);
      [..|by apply elem_of_nil in Hl];
      repeat (apply elem_of_cons in Hc as [[= -> ->]|Hc]);
      try (by apply elem_of_nil in Hc);
      [by apply Fs|by apply Fw|by apply Fd].
Qed.

(** The merge under an allow-list of one label that the navigator knows. *)
Lemma reconcile_one (midas hardware : conditions_map) key :
  key ∈ dom midas →
  reconcile midas hardware (Some [key]) =
    {[key := merged_record midas hardware key]}.
Proof.
  intros Hkey. apply map_eq. intros k. rewrite lookup_reconcile.
  unfold allowed_set.
  destruct (decide (k = key)) as [->|Hk].
  - rewrite lookup_singleton_eq.
    destruct (decide _) as [_|Hn]; [done|].
    exfalso. apply Hn, elem_of_intersection. split.
    + by apply elem_of_union_l.
    + apply elem_of_list_to_set. by left.
  - rewrite lookup_singleton_ne by done.
    destruct (decide _) as [Hin|_]; [|done].
    apply elem_of_intersection in Hin as [_ Hin].
    apply elem_of_list_to_set, list_elem_of_singleton in Hin. done.
Qed.

Lemma table_needs_both_sources_witness :
  (write_offline_table
     [(HStr "MN001",
       merged_record {[KStr "MN001" := Navigator.disabled_record [3; 7]]}
                     (Fetcher.collect_rows [(1, [3; 7], [])]) (KStr "MN001"))]
     {[KStr "MN001" := (1, 2)]} status_levels).2 = Ok () ↔
  ∀ key,
    key ∈ dom (reconcile {[KStr "MN001" := Navigator.disabled_record [3; 7]]}
                         (Fetcher.collect_rows [(1, [3; 7], [])])
                         (Some [KStr "MN001"])) →
    key ∈ dom ({[KStr "MN001" := Navigator.disabled_record [3; 7]]} : conditions_map)
    ∧ key ∈ dom (Fetcher.collect_rows [(1, [3; 7], [])])
    ∧ is_Some (({[KStr "MN001" := (1, 2)]} : gmap pykey (Z * Z)) !! key).
Proof.
  refine (proj1 (table_needs_both_sources _ _ [(1, [3; 7], [])]
                   (Some [KStr "MN001"]) _ {[KStr "MN001" := (1, 2)]}
                   NavigatorMore.navigate_one_sound_panel _)).
  rewrite reconcile_one.
  - rewrite map_to_list_singleton. exact (Permutation_refl _).
  - apply elem_of_dom. rewrite lookup_singleton_eq. by eexists.
Defined.

End EmitterMore.

(** ** The geographic map *)

Module GeographyFacts.
Import Geography.

Lemma load_entry_ok rv j m :
  load_entry rv j = Ok m ↔
  ∃ key value, entry_key j = Some key ∧ entry_value j = Some value ∧
               m = <[key := value]> rv.
Proof.
  unfold load_entry, entry_key, entry_value.
  destruct (getitem j "minnesota") as [minnesota|]; simpl;
    [|split; [done|by intros (? & ? & ? & _)]].
  destruct (getitem j "plane") as [plane|]; simpl;
    [|split; [done|by intros (? & ? & _ & ? & _)]].
  destruct (getitem j "panel") as [panel|]; simpl;
    [|split; [done|by intros (? & ? & _ & ? & _)]].
  destruct (label_of minnesota) as [[key label]|]; simpl;
    [|split; [done|by intros (? & ? & ? & _)]].
  split.
  - intros [= <-]. by exists key, (plane, panel).
  - by intros (? & ? & [= <-] & [= <-] & ->).
Qed.

Lemma load_entries_ok l : ∀ rv m,
  for_each load_entry rv l = Ok m →
  Forall (λ j, is_Some (entry_key j) ∧ is_Some (entry_value j)) l
  ∧ ∀ key, m !! key =
      match last (filter (λ j, entry_key j = Some key) l) with
      | Some j => entry_value j
      | None => rv !! key
      end.
Proof.
  induction l as [|j l IH]; intros rv m H.
  - injection H as <-. split; [constructor|done].
  - cbn [for_each] in H. apply NavigatorFacts.bind_ok in H as (rv' & Hj & H).
    apply load_entry_ok in Hj as (k & v & Hk & Hv & ->).
    destruct (IH _ _ H) as [Hall Hlook]. split.
    + constructor; [|done]. rewrite Hk, Hv. by split; eexists.
    + intros key. rewrite Hlook, filter_cons.
      destruct (decide (entry_key j = Some key)) as [Hkey|Hkey].
      * rewrite last_cons.
        destruct (last (filter _ l)); [done|].
        rewrite Hk in Hkey. injection Hkey as ->.
        by rewrite lookup_insert_eq.
      * destruct (last (filter _ l)); [done|].
        rewrite lookup_insert_ne; [done|]. intros <-. by rewrite Hk in Hkey.
Qed.

Lemma load_entries_total l : ∀ rv,
  Forall (λ j, is_Some (entry_key j) ∧ is_Some (entry_value j)) l →
  ∃ m, for_each load_entry rv l = Ok m.
Proof.
  induction l as [|j l IH]; intros rv Hall; [by eexists|].
  apply Forall_cons in Hall as [[[k Hk] [v Hv]] Hall].
  cbn [for_each].
  assert (load_entry rv j = Ok (<[k := v]> rv)) as ->
    by (apply load_entry_ok; by exists k, v).
  simpl. by apply IH.
Qed.

(** X15: the geographic map is loaded from a list exactly when every record
    of the list has the fields minnesota, plane and panel and a hashable
    minnesota value; a record that lacks one ends the load with an
    exception.  The map then holds, under each minnesota value, the
    coordinates of the last record with that value, earlier ones being
    overwritten, and nothing else.  A number, a boolean or null in the
    place of the list is not iterable. *)
Theorem load_geographic_map_list (l : list json) (m : gmap pykey (json * json)) :
  (load_geographic_map (JArr l) = Ok m ↔
     Forall (λ j, is_Some (entry_key j) ∧ is_Some (entry_value j)) l
     ∧ ∀ key, m !! key =
         last (filter (λ j, entry_key j = Some key) l) ≫= entry_value)
  ∧ (∀ js, match js with
           | JNull | JBool _ | JInt _ =>
               load_geographic_map js =
                 Error (TypeError ("'" +:+ type_name js +:+
                                   "' object is not iterable"))
           | _ => True
           end).
Proof.
  split; [|by intros []].
  unfold load_geographic_map. simpl. split.
  - intros H. destruct (load_entries_ok _ _ _ H) as [Hall Hlook].
    split; [done|]. intros key. rewrite Hlook.
    by destruct (last (filter _ l)).
  - intros [Hall Hlook].
    destruct (load_entries_total l ∅ Hall) as [m' Hm']. rewrite Hm'.
    f_equal. apply map_eq. intros key.
    destruct (load_entries_ok _ _ _ Hm') as [_ Hlook']. rewrite Hlook, Hlook'.
    by destruct (last (filter _ l)).
Qed.

End GeographyFacts.
